(** * genn.py: Markdown tables from paper records, spliced into a README

    A shallow embedding of [genn.py] and the properties of its four steps:
    the input loaders, the badge generators, the table renderer and the
    README patcher.

    Python values are modelled as follows.
    - A [str] is the list of its code points ([N]); literals of the script
      are written [lit "..."].
    - A [dict] is an association list with unique keys kept in insertion
      order, which is the order [items()] iterates in.
    - Exceptions are the left summand of [result]; console output is a list
      of structured messages; the files the script opens live in [world]. *)

From Stdlib Require Import Ascii String.
From Stdlib Require Import List NArith Arith Lia Bool.
Import ListNotations.

(** ** Strings *)

Definition char := N.
Definition str := list char.

Definition lit (s : string) : str := map N_of_ascii (list_ascii_of_string s).

(** Boolean equality on the key and value types of the script. *)
Class Eqb (A : Type) := eqb : A -> A -> bool.

#[export] Instance char_Eqb : Eqb char := N.eqb.

Fixpoint list_eqb {A} `{Eqb A} (l1 l2 : list A) : bool :=
  match l1, l2 with
  | [], [] => true
  | a :: l1', b :: l2' => eqb a b && list_eqb l1' l2'
  | _, _ => false
  end.

#[export] Instance list_Eqb {A} `{Eqb A} : Eqb (list A) := list_eqb.

Definition option_eqb {A} `{Eqb A} (o1 o2 : option A) : bool :=
  match o1, o2 with
  | None, None => true
  | Some a, Some b => eqb a b
  | _, _ => false
  end.

#[export] Instance option_Eqb {A} `{Eqb A} : Eqb (option A) := option_eqb.

Class EqbOk (A : Type) `{Eqb A} :=
  eqb_ok : forall x y : A, eqb x y = true <-> x = y.

(** [s.startswith(p)] *)
Fixpoint startswith (p s : str) : bool :=
  match p, s with
  | [], _ => true
  | _ :: _, [] => false
  | a :: p', b :: s' => N.eqb a b && startswith p' s'
  end.

(** [s.find(sub)]: index of the leftmost occurrence. *)
Fixpoint find (sub s : str) : option nat :=
  if startswith sub s then Some 0
  else match s with
       | [] => None
       | _ :: s' => option_map S (find sub s')
       end.

(** [sub in s] *)
Definition contains (sub s : str) : bool :=
  match find sub s with Some _ => true | None => false end.

(** [s.split(c)] for a separator [c] of one character, the only kind the
    script uses. The result is never empty. *)
Fixpoint split (c : char) (s : str) : list str :=
  match s with
  | [] => [[]]
  | x :: s' =>
      if N.eqb x c then [] :: split c s'
      else match split c s' with
           | h :: t => (x :: h) :: t
           | [] => [[x]]
           end
  end.

(** [parts[-1]] on a list that is known to be non-empty. *)
Definition last_part (parts : list str) : str := last parts [].

(** [s.split(tok, 1)] when [tok in s]: the text before the leftmost
    occurrence and the text after it. *)
Definition split1 (tok s : str) : list str :=
  match find tok s with
  | Some i => [firstn i s; skipn (i + length tok) s]
  | None => [s]
  end.

Fixpoint dropwhile (p : char -> bool) (s : str) : str :=
  match s with
  | [] => []
  | c :: s' => if p c then dropwhile p s' else s
  end.

Definition lstrip_by (p : char -> bool) (s : str) : str := dropwhile p s.
Definition rstrip_by (p : char -> bool) (s : str) : str :=
  rev (dropwhile p (rev s)).

(** [s.rstrip(chars)] *)
Definition rstrip (chars s : str) : str :=
  rstrip_by (fun c => existsb (N.eqb c) chars) s.

(** The code points [str.strip()] removes: those for which [str.isspace]
    holds. *)
Definition isspace (c : char) : bool :=
  ((9 <=? c) && (c <=? 13) || (28 <=? c) && (c <=? 32)
   || (c =? 133) || (c =? 160) || (c =? 5760)
   || (8192 <=? c) && (c <=? 8202)
   || (c =? 8232) || (c =? 8233) || (c =? 8239) || (c =? 8287)
   || (c =? 12288))%N.

(** [s.strip()] *)
Definition strip (s : str) : str := lstrip_by isspace (rstrip_by isspace s).

(** [s.replace(old, new)]: the occurrences of [old] are replaced from the
    left, without overlap. [skip] counts the characters of a matched
    occurrence still to be passed over. *)
Fixpoint replace_go (old new : str) (skip : nat) (s : str) : str :=
  match s with
  | [] => []
  | c :: s' =>
      match skip with
      | S k => replace_go old new k s'
      | O =>
          if startswith old s
          then new ++ replace_go old new (length old - 1) s'
          else c :: replace_go old new 0 s'
      end
  end.

Definition replace (old new s : str) : str :=
  match old with
  | [] => new ++ flat_map (fun c => c :: new) s
  | _ :: _ => replace_go old new 0 s
  end.

(** ** Dictionaries *)

Definition dict (K V : Type) := list (K * V).

Section Dict.
Context {K V : Type} `{Eqb K}.

(** [d.get(k)] *)
Fixpoint dict_get (k : K) (d : dict K V) : option V :=
  match d with
  | [] => None
  | (k', v) :: d' => if eqb k k' then Some v else dict_get k d'
  end.

(** [d[k] = v]: an existing key keeps its place. *)
Fixpoint dict_set (k : K) (v : V) (d : dict K V) : dict K V :=
  match d with
  | [] => [(k, v)]
  | (k', v') :: d' =>
      if eqb k k' then (k', v) :: d' else (k', v') :: dict_set k v d'
  end.

Definition keys (d : dict K V) : list K := map fst d.
End Dict.

(** [data[k].append(x)] on a [defaultdict(list)]. *)
Definition dict_append {K X} `{Eqb K} (k : K) (x : X)
    (d : dict K (list X)) : dict K (list X) :=
  match dict_get k d with
  | Some l => dict_set k (l ++ [x]) d
  | None => dict_set k [x] d
  end.

(** ** Exceptions, console output and files *)

Inductive exn :=
| ValueError (msg : str)
| TypeError
| KeyError (key : str)
| FileNotFoundError (path : str).

Definition result (A : Type) := (exn + A)%type.

Definition OK {A} (a : A) : result A := inr a.
Definition Raise {A} (e : exn) : result A := inl e.

Definition rbind {A B} (r : result A) (k : A -> result B) : result B :=
  match r with
  | inl e => inl e
  | inr a => k a
  end.

(** A value read from a record: a string, or [None]. *)
Definition cell := option str.

(** The lines the script prints. *)
Inductive message :=
| DetectedColumns (fieldnames : option (list str))
| SkippingMalformed (entry : str)
| ErrorProcessing (entry : str)
| TokenNotFound (token path : str)
| ReadmeUpdated (path : str)
| TablesWritten (path : str).

Record world := World {
  files : dict str str;
  stdout : list message
}.

Definition M (A : Type) := world -> result A * world.

Definition ret {A} (a : A) : M A := fun w => (OK a, w).

Definition bind {A B} (m : M A) (k : A -> M B) : M B :=
  fun w =>
    match m w with
    | (inl e, w') => (inl e, w')
    | (inr a, w') => k a w'
    end.

Definition raise {A} (e : exn) : M A := fun w => (Raise e, w).

Definition lift {A} (r : result A) : M A := fun w => (r, w).

Definition print (m : message) : M unit :=
  fun w => (OK tt, World (files w) (stdout w ++ [m])).

(** [open(path).read()] *)
Definition read_file (path : str) : M str :=
  fun w =>
    match dict_get path (files w) with
    | Some content => (OK content, w)
    | None => (Raise (FileNotFoundError path), w)
    end.

(** [open(path, 'w').write(content)] *)
Definition write_file (path content : str) : M unit :=
  fun w => (OK tt, World (dict_set path content (files w)) (stdout w)).

Declare Scope py_scope.
Delimit Scope py_scope with py.

Notation "x <- m ;; k" := (bind m (fun x => k))
  (at level 61, m at next level, right associativity) : py_scope.
Notation "m ;;; k" := (bind m (fun _ => k))
  (at level 61, right associativity) : py_scope.
Notation "x <~ r ;; k" := (rbind r (fun x => k))
  (at level 61, r at next level, right associativity) : py_scope.

Open Scope py_scope.

(** ** Records

    A record is a dictionary from column names to cells. [csv.DictReader]
    stores the cells a row has beyond the header as a list under the key
    [None]; no lookup of the script reads that key, so the list is kept
    aside in [surplus]. *)
Record entry := Entry {
  cells : dict str cell;
  surplus : option (list str)
}.

(** [entry[k]] *)
Definition getitem (e : entry) (k : str) : result cell :=
  match dict_get k (cells e) with
  | Some v => OK v
  | None => Raise (KeyError k)
  end.

(** [entry.get(k, default)] *)
Definition get (e : entry) (k : str) (default : cell) : cell :=
  match dict_get k (cells e) with
  | Some v => v
  | None => default
  end.

(** How an f-string shows a cell. *)
Definition fmt (c : cell) : str :=
  match c with
  | Some s => s
  | None => lit "None"
  end.

(** Truth value of a cell in a condition. *)
Definition truthy (c : cell) : bool :=
  match c with
  | Some (_ :: _) => true
  | _ => false
  end.

(** Passing a cell where the callee applies [in] to it: [None] raises. *)
Definition as_str (c : cell) : result str :=
  match c with
  | Some s => OK s
  | None => Raise TypeError
  end.

(** A topic is the key of a group: a string, or [None] when the row of a
    CSV file is too short to have the cell. *)
Definition topic := cell.

Definition data := dict topic (list entry).

Definition nl : str := [10%N].

(** ** Input loader: CSV *)

(** Decoding with [utf-8-sig] drops a byte order mark at the start. *)
Definition decode_utf8_sig (s : str) : str :=
  match s with
  | 65279%N :: s' => s'
  | _ => s
  end.

(** [dict(zip(fieldnames, row))] *)
Definition zip_dict (fieldnames row : list str) : dict str cell :=
  fold_left (fun d kv => dict_set (fst kv) (Some (snd kv)) d)
            (combine fieldnames row) [].

(** The dictionary [csv.DictReader] makes of one non-blank row: surplus
    cells go under [restkey] (the key [None]), missing cells are filled
    with [restval] (the value [None]). *)
Definition DictReader_row (fieldnames row : list str) : entry :=
  let d := zip_dict fieldnames row in
  let lf := length fieldnames in
  let lr := length row in
  if lf <? lr then Entry d (Some (skipn lf row))
  else if lr <? lf then
    Entry (fold_left (fun d k => dict_set k None d) (skipn lr fieldnames) d)
          None
  else Entry d None.

Definition is_blank (row : list str) : bool :=
  match row with [] => true | _ :: _ => false end.

(** The rows [csv.DictReader] yields after the header: blank rows are
    passed over. *)
Definition DictReader_rows (fieldnames : list str) (rows : list (list str))
    : list entry :=
  map (DictReader_row fieldnames) (filter (fun r => negb (is_blank r)) rows).

(** The loop [for row in reader: data[row['topic']].append(row)]. *)
Fixpoint group_rows (rows : list entry) (d : data) : result data :=
  match rows with
  | [] => OK d
  | row :: rest =>
      t <~ getitem row (lit "topic") ;;
      group_rows rest (dict_append t row d)
  end.

Definition missing_topic_msg : str :=
  lit "CSV must contain a 'topic' column.".

Section Loader.
(** [csv.reader] of Python's standard library: the rows of a text, each
    the list of its cells. The first row is the header. *)
Variable csv_reader : str -> list (list str).

Definition load_data_from_csv (csv_path : str) : M data :=
  text <- read_file csv_path ;;
  let rows := csv_reader (decode_utf8_sig text) in
  let fieldnames := hd_error rows in
  print (DetectedColumns fieldnames) ;;;
  match fieldnames with
  | None => raise TypeError
  | Some names =>
      if negb (existsb (eqb (lit "topic")) names)
      then raise (ValueError missing_topic_msg)
      else lift (group_rows (DictReader_rows names (tl rows)) [])
  end.
End Loader.

(** ** Input loader: manual entries *)

(** The record built from the six fields after the topic. *)
Definition manual_record (title authors code arxiv_page project_page
    summary : str) : entry :=
  Entry [ (lit "title", Some (strip title));
          (lit "authors", Some (strip authors));
          (lit "code", Some (strip code));
          (lit "arxiv page", Some (strip arxiv_page));
          (lit "project page", Some (strip project_page));
          (lit "summary", Some (strip summary)) ]
        None.

(** The body of the loop of [collect_manual_data]. Unpacking a list of
    seven parts into seven names cannot raise; the last branch stands for
    the [except ValueError] handler of the source. *)
Definition collect_entry (e : str) (d : data) : M data :=
  let parts := split 59%N e in
  if length parts =? 7 then
    match parts with
    | [tpc; title; authors; code; arxiv_page; project_page; summary] =>
        ret (dict_append (Some tpc)
               (manual_record title authors code arxiv_page project_page
                  summary) d)
    | _ => print (ErrorProcessing e) ;;; ret d
    end
  else print (SkippingMalformed e) ;;; ret d.

Fixpoint collect_loop (entries : list str) (d : data) : M data :=
  match entries with
  | [] => ret d
  | e :: rest => d' <- collect_entry e d ;; collect_loop rest d'
  end.

Definition collect_manual_data (entries : list str) : M data :=
  collect_loop entries [].

(** ** Badge generator *)

Definition github_host : str := lit "https://github.com/".

Definition code_badge_of (repo_name code_url : str) : str :=
  lit "[![GitHub](https://img.shields.io/github/stars/" ++ repo_name
  ++ lit "?style=social)](" ++ code_url ++ lit ")".

Definition generate_code_badge (code_url : str) : str :=
  if contains (lit "github.com") code_url then
    let repo_name := replace github_host [] (rstrip (lit "/") code_url) in
    code_badge_of repo_name code_url
  else [].

Definition arxiv_badge_of (arxiv_id arxiv_url : str) : str :=
  lit "[![arXiv](https://img.shields.io/badge/arXiv-" ++ arxiv_id
  ++ lit "-b31b1b.svg?style=for-the-badge)](" ++ arxiv_url ++ lit ")".

Definition generate_arxiv_badge (arxiv_url : str) : str :=
  if contains (lit "arxiv.org") arxiv_url
     || contains (lit "ar5iv.labs") arxiv_url
  then
    let arxiv_id := last_part (split 47%N arxiv_url) in
    arxiv_badge_of arxiv_id arxiv_url
  else [].

(** ** Table renderer *)

Definition title_line : str :=
  lit "| Title | Authors | Code / arXiv Page | Summary |".

Definition rule_line : str :=
  lit "|:-------------------|:-------------------|:-------------------:|:-------------------|".

Definition table_header : str := title_line ++ nl ++ rule_line ++ nl.

(** The cell that holds both badges. *)
Definition badge_cell (code_badge arxiv_badge : str) : str :=
  strip (code_badge ++ lit " " ++ arxiv_badge).

Definition row_text (title authors code_arxiv_combined summary : str) : str :=
  lit "| " ++ title ++ lit " | " ++ authors ++ lit " | "
  ++ code_arxiv_combined ++ lit " | " ++ summary ++ lit " |" ++ nl.

Definition linked_title (title page : str) : str :=
  lit "[" ++ title ++ lit "](" ++ page ++ lit ")".

(** The body of the inner loop of [generate_markdown_tables]: the row of
    one record, in the order the source evaluates it. *)
Definition render_row (e : entry) : result str :=
  code <~ getitem e (lit "code") ;;
  code_url <~ as_str code ;;
  let code_badge := generate_code_badge code_url in
  arxiv_url <~ as_str (get e (lit "arxiv page") (Some [])) ;;
  let arxiv_badge := generate_arxiv_badge arxiv_url in
  let summary := get e (lit "summary") (Some []) in
  let code_arxiv_combined := badge_cell code_badge arxiv_badge in
  title <~ getitem e (lit "title") ;;
  title' <~ (if truthy (get e (lit "project page") None)
             then page <~ getitem e (lit "project page") ;;
                  OK (linked_title (fmt title) (fmt page))
             else OK (fmt title)) ;;
  authors <~ getitem e (lit "authors") ;;
  OK (row_text title' (fmt authors) code_arxiv_combined (fmt summary)).

Fixpoint render_rows (table : str) (entries : list entry) : result str :=
  match entries with
  | [] => OK table
  | e :: rest => row <~ render_row e ;; render_rows (table ++ row) rest
  end.

Fixpoint render_tables (tables : dict topic str) (items : data)
    : result (dict topic str) :=
  match items with
  | [] => OK tables
  | (t, entries) :: rest =>
      table <~ render_rows table_header entries ;;
      render_tables (dict_set t table tables) rest
  end.

Definition generate_markdown_tables (d : data) : result (dict topic str) :=
  render_tables [] d.

(** ** README patcher *)

Definition token : str := lit "<!-- TABLES_START -->".

Definition section_text (t : topic) (table : str) : str :=
  nl ++ lit "## " ++ fmt t ++ nl ++ table ++ nl.

Definition new_content_of (tables : dict topic str) : str :=
  fold_left (fun acc kv => acc ++ section_text (fst kv) (snd kv)) tables [].

(** [parts[0]] of the result of a split, which is never empty. *)
Definition first_part (parts : list str) : str := hd [] parts.

Definition update_readme_with_tables (tables : dict topic str)
    (readme_path : str) : M unit :=
  let new_content := new_content_of tables in
  content <- read_file readme_path ;;
  updated <- (if contains token content
              then ret (first_part (split1 token content) ++ token
                        ++ new_content)
              else print (TokenNotFound token readme_path) ;;;
                   ret (content ++ nl ++ token ++ new_content)) ;;
  write_file readme_path updated ;;;
  print (ReadmeUpdated readme_path).

(** ** Command line *)

Record arguments := Arguments_ {
  arg_csv : option str;
  arg_entries : option (list str);
  arg_output : str
}.

Definition no_input_msg : str :=
  lit "No input provided. Use --csv for CSV input or --entries for manual input.".

Section Main.
Variable csv_reader : str -> list (list str).

Definition main (args : arguments) : M unit :=
  d <- match arg_csv args, arg_entries args with
       | Some (c :: p), _ => load_data_from_csv csv_reader (c :: p)
       | _, Some (e :: es) => collect_manual_data (e :: es)
       | _, _ => raise (ValueError no_input_msg)
       end ;;
  tables <- lift (generate_markdown_tables d) ;;
  update_readme_with_tables tables (arg_output args) ;;;
  print (TablesWritten (arg_output args)).
End Main.

(** ** Reference notions for the statements *)



(** One step of a grouping loop: the item [x] is filed under [key x]. *)
Definition group_step {K X Y} `{Eqb K} (key : X -> K) (val : X -> Y)
    (d : dict K (list Y)) (x : X) : dict K (list Y) :=
  dict_append (key x) (val x) d.

(** A manual entry read as a line of seven fields separated by
    semicolons, the first of which is the topic. *)
Definition parse_manual (e : str) : option (str * entry) :=
  match split 59%N e with
  | [tpc; title; authors; code; arxiv_page; project_page; summary] =>
      Some (tpc,
            manual_record title authors code arxiv_page project_page summary)
  | _ => None
  end.



(** Whether a manual entry has the seven parts. *)
Definition seven_parts (e : str) : bool := length (split 59%N e) =? 7.

(** The entries that have the seven parts, parsed. *)
Definition parsed (entries : list str) : list (str * entry) :=
  flat_map (fun e => match parse_manual e with
                     | Some p => [p]
                     | None => []
                     end) entries.

(** The cell of a row that decides its group. *)
Definition topic_cell (r : entry) : topic := get r (lit "topic") None.







(** The text [update_readme_with_tables] writes over a file that holds
    [content]. *)
Definition updated_text (tables : dict topic str) (content : str) : str :=
  if contains token content
  then first_part (split1 token content) ++ token ++ new_content_of tables
  else content ++ nl ++ token ++ new_content_of tables.

(** The first step of [main]: the data, from the source the arguments
    select. *)
Definition main_input (csv_reader : str -> list (list str))
    (args : arguments) : M data :=
  match arg_csv args, arg_entries args with
  | Some (c :: p), _ => load_data_from_csv csv_reader (c :: p)
  | _, Some (e :: es) => collect_manual_data (e :: es)
  | _, _ => raise (ValueError no_input_msg)
  end.

(** The number of records of the data, over all topics. *)
Definition record_count (d : data) : nat := length (flat_map snd d).

(** * Properties *)

(** ** Equality tests *)

Lemma char_eqb_ok : forall x y : char, eqb x y = true <-> x = y.
Proof. intros x y. apply N.eqb_eq. Qed.

#[export] Instance char_EqbOk : EqbOk char := char_eqb_ok.

Lemma list_eqb_ok {A} `{EqbOk A} : forall l1 l2 : list A,
  eqb l1 l2 = true <-> l1 = l2.
Proof.
  induction l1 as [|a l1 IH]; intros [|b l2]; cbn; split; intro E;
    try reflexivity; try discriminate.
  - apply andb_true_iff in E as [E1 E2].
    apply eqb_ok in E1. apply IH in E2. congruence.
  - injection E as -> ->. apply andb_true_iff. split.
    + now apply eqb_ok.
    + now apply IH.
Qed.

#[export] Instance list_EqbOk {A} `{EqbOk A} : EqbOk (list A) := list_eqb_ok.

Lemma option_eqb_ok {A} `{EqbOk A} : forall o1 o2 : option A,
  eqb o1 o2 = true <-> o1 = o2.
Proof.
  intros [a|] [b|]; cbn; split; intro E; try reflexivity; try discriminate.
  - apply eqb_ok in E. congruence.
  - injection E as ->. now apply eqb_ok.
Qed.

#[export] Instance option_EqbOk {A} `{EqbOk A} : EqbOk (option A) :=
  option_eqb_ok.

Lemma eqb_refl {A} `{EqbOk A} (x : A) : eqb x x = true.
Proof. now apply eqb_ok. Qed.

Lemma eqb_neq {A} `{EqbOk A} (x y : A) : eqb x y = false <-> x <> y.
Proof.
  split.
  - intros E F. apply eqb_ok in F. congruence.
  - intro N. destruct (eqb x y) eqn:E; [|reflexivity].
    apply eqb_ok in E. contradiction.
Qed.

Lemma eqb_sym {A} `{EqbOk A} (x y : A) : eqb x y = eqb y x.
Proof.
  destruct (eqb y x) eqn:E.
  - apply eqb_ok in E. subst. apply eqb_refl.
  - apply eqb_neq in E. apply eqb_neq. congruence.
Qed.

(** ** Prefixes and occurrences *)

Lemma startswith_iff (p s : str) :
  startswith p s = true <-> exists r, s = p ++ r.
Proof.
  revert s. induction p as [|a p IH]; intros s; cbn.
  - split; [intros _; now exists s | reflexivity].
  - destruct s as [|b s].
    + split; [discriminate | intros [r E]; discriminate].
    + rewrite andb_true_iff, N.eqb_eq, IH. split.
      * intros [-> [r ->]]. now exists r.
      * intros [r E]. injection E as -> ->. split; [reflexivity | now exists r].
Qed.

Lemma startswith_app (p r : str) : startswith p (p ++ r) = true.
Proof. apply startswith_iff. now exists r. Qed.

Lemma startswith_nil_r (p : str) : startswith p [] = true -> p = [].
Proof. destruct p; [reflexivity | discriminate]. Qed.

(** A prefix test that succeeds on [a ++ x :: b] either succeeds within
    [a] or reaches the character [x]. *)
Lemma startswith_across (p a b : str) (x : char) :
  startswith p (a ++ x :: b) = true -> startswith p a = true \/ In x p.
Proof.
  revert a. induction p as [|c p IH]; intros a E; [now left|].
  destruct a as [|d a]; cbn in *.
  - apply andb_true_iff in E as [E _]. apply N.eqb_eq in E. right. now left.
  - apply andb_true_iff in E as [E1 E2].
    destruct (IH _ E2) as [E3 | I].
    + left. now rewrite E1, E3.
    + right. now right.
Qed.

(** The prefix test looks at no more than [length p] characters. *)
Lemma startswith_local (p s t : str) :
  firstn (length p) s = firstn (length p) t ->
  startswith p s = startswith p t.
Proof.
  revert s t. induction p as [|c p IH]; intros s t E; [reflexivity|].
  destruct s as [|a s], t as [|b t]; cbn in *; try discriminate; auto.
  injection E as -> E. f_equal. now apply IH.
Qed.

Lemma find_Some (sub s : str) (i : nat) :
  find sub s = Some i ->
  s = firstn i s ++ sub ++ skipn (i + length sub) s /\ i <= length s.
Proof.
  revert i. induction s as [|c s IH]; intros i; cbn.
  - destruct (startswith sub []) eqn:E; [|discriminate].
    intros [= <-]. apply startswith_nil_r in E. subst. now split.
  - destruct (startswith sub (c :: s)) eqn:E.
    + intros [= <-]. apply startswith_iff in E as [r E]. cbn.
      split; [|lia]. rewrite E at 1. f_equal.
      rewrite E. rewrite skipn_app, skipn_all, Nat.sub_diag. reflexivity.
    + destruct (find sub s) as [j|] eqn:F; [|discriminate].
      cbn. intros [= <-]. destruct (IH j eq_refl) as [E1 E2].
      cbn. split; [|lia]. f_equal. exact E1.
Qed.

Lemma find_leftmost (sub s : str) (i : nat) :
  find sub s = Some i ->
  forall a b, s = a ++ sub ++ b -> i <= length a.
Proof.
  revert i. induction s as [|c s IH]; intros i; cbn.
  - destruct (startswith sub []); [|discriminate].
    intros [= <-] a b _. lia.
  - destruct (startswith sub (c :: s)) eqn:E.
    + intros [= <-] a b _. lia.
    + destruct (find sub s) as [j|] eqn:F; [|discriminate].
      cbn. intros [= <-] a b Hs. destruct a as [|d a].
      * cbn in Hs. rewrite Hs, startswith_app in E. discriminate.
      * cbn in Hs. injection Hs as _ Hs. cbn.
        specialize (IH j eq_refl a b Hs). lia.
Qed.

Lemma find_None (sub s : str) :
  find sub s = None -> forall a b, s <> a ++ sub ++ b.
Proof.
  induction s as [|c s IH]; cbn.
  - destruct (startswith sub []) eqn:E; [discriminate|].
    intros _ a b Hs. destruct a; [|discriminate].
    cbn in Hs. rewrite Hs, startswith_app in E. discriminate.
  - destruct (startswith sub (c :: s)) eqn:E; [discriminate|].
    destruct (find sub s) eqn:F; [discriminate|].
    intros _ a b Hs. destruct a as [|d a].
    + cbn in Hs. rewrite Hs, startswith_app in E. discriminate.
    + cbn in Hs. injection Hs as _ Hs. exact (IH eq_refl a b Hs).
Qed.

Lemma contains_iff (sub s : str) :
  contains sub s = true <-> exists a b, s = a ++ sub ++ b.
Proof.
  unfold contains. destruct (find sub s) as [i|] eqn:F; split.
  - intros _. apply find_Some in F as [E _]. eauto.
  - reflexivity.
  - discriminate.
  - intros (a & b & E). exfalso. exact (find_None _ _ F a b E).
Qed.

Lemma contains_false_iff (sub s : str) :
  contains sub s = false <-> forall a b, s <> a ++ sub ++ b.
Proof.
  split.
  - intros E a b Hs.
    assert (C : contains sub s = true) by (apply contains_iff; eauto).
    congruence.
  - intros N. destruct (contains sub s) eqn:E; [|reflexivity].
    apply contains_iff in E as (a & b & E). now destruct (N a b).
Qed.

Lemma contains_find_None (sub s : str) :
  contains sub s = false <-> find sub s = None.
Proof.
  unfold contains. destruct (find sub s); split; congruence.
Qed.

Lemma firstn_app_same {A} (n : nat) (x y z : list A) :
  n <= length x -> firstn n (x ++ y) = firstn n (x ++ z).
Proof.
  intro L. rewrite !firstn_app. replace (n - length x) with 0 by lia.
  reflexivity.
Qed.

Lemma find_unfold (sub s : str) :
  find sub s =
  if startswith sub s then Some 0
  else match s with
       | [] => None
       | _ :: s' => option_map S (find sub s')
       end.
Proof. now destruct s. Qed.

Lemma find_at_start (sub t : str) : find sub (sub ++ t) = Some 0.
Proof. now rewrite find_unfold, startswith_app. Qed.

(** Where [find] stops depends only on the text up to the end of the
    occurrence it reports. *)
Lemma find_local (sub a b : str) :
  find sub (a ++ sub ++ b) = Some (length a) ->
  forall t, find sub (a ++ sub ++ t) = Some (length a).
Proof.
  induction a as [|c a IH]; intros F t.
  - cbn [app length]. apply find_at_start.
  - cbn [app length] in *. rewrite find_unfold in F. rewrite find_unfold.
    destruct (startswith sub (c :: a ++ sub ++ b)) eqn:E; [discriminate|].
    destruct (find sub (a ++ sub ++ b)) as [j|] eqn:G; [|discriminate].
    cbn in F. injection F as ->.
    rewrite (IH eq_refl t). cbn.
    assert (Q : startswith sub (c :: a ++ sub ++ t) = false).
    { rewrite <- E. apply startswith_local.
      change (c :: a ++ sub ++ t) with ((c :: a) ++ sub ++ t).
      change (c :: a ++ sub ++ b) with ((c :: a) ++ sub ++ b).
      rewrite !app_assoc. apply firstn_app_same.
      rewrite length_app. lia. }
    now rewrite Q.
Qed.

Lemma find_decompose (sub s : str) (i : nat) :
  find sub s = Some i ->
  exists a b, s = a ++ sub ++ b /\ length a = i /\ a = firstn i s.
Proof.
  intro F. destruct (find_Some _ _ _ F) as [E L].
  exists (firstn i s), (skipn (i + length sub) s).
  split; [exact E|]. split; [|reflexivity].
  rewrite length_firstn. lia.
Qed.
(** ** Splitting on a character *)

Lemma split_not_nil (c : char) (s : str) : split c s <> [].
Proof.
  induction s as [|x s IH]; cbn; [discriminate|].
  destruct (N.eqb x c); [discriminate|].
  destruct (split c s); [contradiction | discriminate].
Qed.

Lemma split_absent (c : char) (s : str) : ~ In c s -> split c s = [s].
Proof.
  induction s as [|x s IH]; intro N; [reflexivity|]. cbn.
  destruct (N.eqb_spec x c) as [->|_]; [destruct N; now left|].
  rewrite IH; [reflexivity|]. intro I. apply N. now right.
Qed.

Lemma split_app (c : char) (a b : str) :
  split c (a ++ c :: b) = split c a ++ split c b.
Proof.
  induction a as [|x a IH]; cbn.
  - now rewrite N.eqb_refl.
  - destruct (N.eqb x c); [now rewrite IH|].
    rewrite IH. destruct (split c a) eqn:E; [|reflexivity].
    now destruct (split_not_nil c a).
Qed.

Lemma last_app_not_nil {A} (l1 l2 : list A) (d : A) :
  l2 <> [] -> last (l1 ++ l2) d = last l2 d.
Proof.
  intro N. induction l1 as [|x l1 IH]; [reflexivity|].
  cbn [app]. destruct (l1 ++ l2) eqn:E.
  - apply app_eq_nil in E as [_ E]. contradiction.
  - rewrite <- IH. reflexivity.
Qed.

(** The last part of a split is what follows the last separator. *)
Lemma last_part_after (c : char) (a b : str) :
  ~ In c b -> last_part (split c (a ++ c :: b)) = b.
Proof.
  intro N. unfold last_part. rewrite split_app.
  rewrite last_app_not_nil by apply split_not_nil.
  now rewrite split_absent.
Qed.

Lemma last_part_whole (c : char) (s : str) :
  ~ In c s -> last_part (split c s) = s.
Proof. intro N. unfold last_part. now rewrite split_absent. Qed.

Lemma length_split (c : char) (s : str) :
  length (split c s) = S (count_occ N.eq_dec s c).
Proof.
  induction s as [|x s IH]; [reflexivity|]. cbn.
  destruct (N.eqb_spec x c) as [->|N].
  - cbn. rewrite IH. now destruct (N.eq_dec c c).
  - destruct (N.eq_dec x c); [contradiction|].
    rewrite <- IH. destruct (split c s) eqn:E; [|reflexivity].
    now destruct (split_not_nil c s).
Qed.

(** ** Stripping *)

Lemma dropwhile_app_all (p : char -> bool) (a b : str) :
  forallb p a = true -> dropwhile p (a ++ b) = dropwhile p b.
Proof.
  induction a as [|x a IH]; cbn; [reflexivity|].
  intro F. apply andb_true_iff in F as [F1 F2]. now rewrite F1, IH.
Qed.

Lemma forallb_rev_true (p : char -> bool) (s : str) :
  forallb p s = true -> forallb p (rev s) = true.
Proof.
  rewrite !forallb_forall. intros F x I. apply F. now apply in_rev.
Qed.

Lemma dropwhile_stop (p : char -> bool) (x : char) (s : str) :
  p x = false -> dropwhile p (x :: s) = x :: s.
Proof. intro E. cbn. now rewrite E. Qed.

Lemma rstrip_by_tail (p : char -> bool) (body tail : str) (x : char) :
  p x = false -> forallb p tail = true ->
  rstrip_by p ((body ++ [x]) ++ tail) = body ++ [x].
Proof.
  intros E F. unfold rstrip_by. rewrite rev_app_distr.
  rewrite dropwhile_app_all by now apply forallb_rev_true.
  rewrite rev_app_distr. cbn [rev app]. rewrite dropwhile_stop by exact E.
  change (x :: rev body) with ([x] ++ rev body).
  now rewrite rev_app_distr, rev_involutive.
Qed.

Lemma rstrip_by_all (p : char -> bool) (tail : str) :
  forallb p tail = true -> rstrip_by p tail = [].
Proof.
  intro F. unfold rstrip_by.
  rewrite <- (app_nil_r (rev tail)).
  now rewrite dropwhile_app_all by now apply forallb_rev_true.
Qed.

Lemma rstrip_by_keep (p : char -> bool) (body : str) (x : char) :
  p x = false -> rstrip_by p (body ++ [x]) = body ++ [x].
Proof.
  intro E. rewrite <- (app_nil_r (body ++ [x])) at 1.
  now apply rstrip_by_tail.
Qed.

(** What [rstrip_by] returns is a prefix of its argument, the rest
    satisfies [p], and the result does not end in a character that
    satisfies [p]. *)
Lemma rstrip_by_spec (p : char -> bool) (s : str) :
  exists tail, s = rstrip_by p s ++ tail /\ forallb p tail = true
               /\ (forall body x, rstrip_by p s = body ++ [x] -> p x = false).
Proof.
  induction s as [|x s IH] using rev_ind.
  - exists []. repeat split. intros body x E. now destruct body.
  - destruct (p x) eqn:E.
    + destruct IH as (tail & E1 & E2 & E3).
      assert (R : rstrip_by p (s ++ [x]) = rstrip_by p s).
      { unfold rstrip_by. rewrite rev_app_distr. cbn. now rewrite E. }
      rewrite R. exists (tail ++ [x]). split; [|split].
      * rewrite app_assoc. now rewrite <- E1.
      * rewrite forallb_app, E2. cbn. now rewrite E.
      * exact E3.
    + rewrite rstrip_by_keep by exact E. exists []. split; [|split].
      * now rewrite app_nil_r.
      * reflexivity.
      * intros body y Hy. apply app_inj_tail in Hy as [_ <-]. exact E.
Qed.

(** A text that neither starts nor ends with white space is left as it
    is by [strip]. *)
Lemma strip_fixed (a z : char) (mid : str) :
  isspace a = false -> isspace z = false ->
  strip (a :: mid ++ [z]) = a :: mid ++ [z].
Proof.
  intros Ea Ez. unfold strip, lstrip_by.
  change (a :: mid ++ [z]) with ((a :: mid) ++ [z]).
  rewrite rstrip_by_keep by exact Ez. cbn [app].
  now apply dropwhile_stop.
Qed.

(** ** Replacing *)


Lemma replace_go_absent (old new s : str) :
  find old s = None -> replace_go old new 0 s = s.
Proof.
  induction s as [|c s IH]; [reflexivity|].
  rewrite find_unfold. cbn [replace_go].
  destruct (startswith old (c :: s)); [discriminate|].
  destruct (find old s); [discriminate|]. intros _. now rewrite IH.
Qed.



Lemma replace_absent (old new s : str) :
  old <> [] -> contains old s = false -> replace old new s = s.
Proof.
  intros N C. unfold replace. destruct old; [contradiction|].
  apply replace_go_absent. now apply contains_find_None.
Qed.
Lemma last_occurrence (c : char) (s : str) :
  In c s -> exists pre b, s = pre ++ c :: b /\ ~ In c b.
Proof.
  induction s as [|x s IH]; intro I; [contradiction|].
  destruct (in_dec N.eq_dec c s) as [I'|N].
  - destruct (IH I') as (pre & b & -> & Nb). now exists (x :: pre), b.
  - destruct I as [->|I]; [|contradiction]. now exists [], s.
Qed.

(** [split(c)[-1]] is the text after the last [c], or the whole text when
    there is no [c]. *)
Lemma last_part_spec (c : char) (s : str) :
  ~ In c (last_part (split c s))
  /\ (s = last_part (split c s)
      \/ exists pre, s = pre ++ c :: last_part (split c s)).
Proof.
  destruct (in_dec N.eq_dec c s) as [I|N].
  - destruct (last_occurrence c s I) as (pre & b & -> & Nb).
    rewrite last_part_after by exact Nb. split; [exact Nb|].
    right. now exists pre.
  - rewrite last_part_whole by exact N. split; [exact N | now left].
Qed.

Lemma contains_app_r (sub a b : str) :
  contains sub a = true -> contains sub (a ++ b) = true.
Proof.
  intro C. apply contains_iff in C as (x & y & ->). apply contains_iff.
  exists x, (y ++ b). now rewrite <- !app_assoc.
Qed.

Lemma github_host_not_nil : github_host <> [].
Proof. discriminate. Qed.

(** ** Dictionaries *)

Section DictFacts.
Context {K V : Type} `{EqbOk K}.

Lemma dict_get_set_same (k : K) (v : V) (d : dict K V) :
  dict_get k (dict_set k v d) = Some v.
Proof.
  induction d as [|[k' v'] d IH]; cbn.
  - now rewrite eqb_refl.
  - destruct (eqb k k') eqn:E; cbn; rewrite E; [reflexivity | exact IH].
Qed.

Lemma dict_get_set_other (k k' : K) (v : V) (d : dict K V) :
  k <> k' -> dict_get k' (dict_set k v d) = dict_get k' d.
Proof.
  intro N. induction d as [|[k1 v1] d IH]; cbn.
  - replace (eqb k' k) with false; [reflexivity|].
    symmetry. apply eqb_neq. congruence.
  - destruct (eqb k k1) eqn:E; cbn.
    + apply eqb_ok in E. subst k1.
      replace (eqb k' k) with false; [reflexivity|].
      symmetry. apply eqb_neq. congruence.
    + now rewrite IH.
Qed.

Lemma dict_set_twice (k : K) (v v' : V) (d : dict K V) :
  dict_set k v' (dict_set k v d) = dict_set k v' d.
Proof.
  induction d as [|[k1 v1] d IH]; cbn.
  - now rewrite eqb_refl.
  - destruct (eqb k k1) eqn:E; cbn; rewrite E; [reflexivity|].
    now rewrite IH.
Qed.

Lemma dict_get_None (k : K) (d : dict K V) :
  dict_get k d = None <-> ~ In k (keys d).
Proof.
  induction d as [|[k1 v1] d IH]; cbn.
  - tauto.
  - destruct (eqb k k1) eqn:E.
    + apply eqb_ok in E. subst. split; [discriminate | intros N].
      destruct N. now left.
    + apply eqb_neq in E. rewrite IH. split.
      * intros N [F|F]; [congruence | contradiction].
      * intros N F. apply N. now right.
Qed.

Lemma dict_get_Some_In (k : K) (v : V) (d : dict K V) :
  dict_get k d = Some v -> In (k, v) d.
Proof.
  induction d as [|[k1 v1] d IH]; cbn; [discriminate|].
  destruct (eqb k k1) eqn:E.
  - apply eqb_ok in E. subst. intros [= ->]. now left.
  - intro G. right. now apply IH.
Qed.

Lemma dict_set_absent (k : K) (v : V) (d : dict K V) :
  dict_get k d = None -> dict_set k v d = d ++ [(k, v)].
Proof.
  induction d as [|[k1 v1] d IH]; cbn; [reflexivity|].
  destruct (eqb k k1); [discriminate|]. intro G. now rewrite IH.
Qed.


Lemma dict_get_app_absent (k : K) (d1 d2 : dict K V) :
  dict_get k d1 = None -> dict_get k (d1 ++ d2) = dict_get k d2.
Proof.
  induction d1 as [|[k1 v1] d1 IH]; cbn; [reflexivity|].
  destruct (eqb k k1); [discriminate | exact IH].
Qed.
End DictFacts.

(** ** Patching *)

Lemma find_after_absent (tok s t : str) (x : char) :
  find tok s = None -> ~ In x tok ->
  find tok (s ++ x :: tok ++ t) = Some (S (length s)).
Proof.
  intros F N. induction s as [|c s IH].
  - cbn [app length]. rewrite find_unfold.
    destruct tok as [|y tok]; [discriminate|].
    assert (E : startswith (y :: tok) (x :: (y :: tok) ++ t) = false).
    { cbn. destruct (N.eqb_spec y x) as [->|_]; [|reflexivity].
      destruct N. now left. }
    now rewrite E, find_at_start.
  - rewrite find_unfold in F.
    destruct (startswith tok (c :: s)) eqn:E; [discriminate|].
    destruct (find tok s) eqn:G; [discriminate|].
    cbn [app length]. rewrite find_unfold.
    assert (E' : startswith tok (c :: s ++ x :: tok ++ t) = false).
    { destruct (startswith tok (c :: s ++ x :: tok ++ t)) eqn:Q;
        [|reflexivity].
      apply (startswith_across tok (c :: s) (tok ++ t) x) in Q.
      destruct Q; [congruence | contradiction]. }
    now rewrite E', IH.
Qed.

Lemma first_part_split1 (tok before after : str) :
  find tok (before ++ tok ++ after) = Some (length before) ->
  first_part (split1 tok (before ++ tok ++ after)) = before.
Proof.
  intro F. unfold split1. rewrite F. cbn.
  now rewrite firstn_app, firstn_all, Nat.sub_diag, app_nil_r.
Qed.

(** The text before the leftmost marker. *)
Lemma split1_leftmost (tok content : str) :
  contains tok content = true ->
  exists before after : str,
    content = before ++ tok ++ after
    /\ find tok (before ++ tok ++ after) = Some (length before)
    /\ (forall a b : str, content = a ++ tok ++ b -> length before <= length a)
    /\ first_part (split1 tok content) = before.
Proof.
  unfold contains. destruct (find tok content) as [i|] eqn:F; [|discriminate].
  intros _. destruct (find_decompose _ _ _ F) as (a & b & E & L & _).
  exists a, b. split; [exact E|]. subst i.
  split; [now rewrite <- E|]. split.
  - intros a' b' E'. exact (find_leftmost _ _ _ F a' b' E').
  - rewrite E. apply first_part_split1. now rewrite <- E.
Qed.

Lemma token_no_newline : ~ In 10%N token.
Proof.
  intro I. vm_compute in I.
  repeat (destruct I as [I|I]; [discriminate|]). exact I.
Qed.
(** ** Grouping *)

Section KeysFacts.
Context {K V : Type} `{EqbOk K}.

Lemma in_keys_dict_set (k k' : K) (v : V) (d : dict K V) :
  In k (keys (dict_set k' v d)) <-> k = k' \/ In k (keys d).
Proof.
  induction d as [|[k1 v1] d IH]; cbn.
  - intuition congruence.
  - destruct (eqb k' k1) eqn:E; cbn.
    + apply eqb_ok in E. subst. intuition congruence.
    + rewrite IH. intuition congruence.
Qed.

Lemma NoDup_keys_dict_set (k : K) (v : V) (d : dict K V) :
  NoDup (keys d) -> NoDup (keys (dict_set k v d)).
Proof.
  induction d as [|[k1 v1] d IH]; cbn; intro N.
  - constructor; [intros [] | constructor].
  - inversion N as [|? ? N1 N2]; subst.
    destruct (eqb k k1) eqn:E; cbn.
    + now constructor.
    + constructor; [|now apply IH].
      intro I. apply in_keys_dict_set in I as [->|I]; [|contradiction].
      rewrite eqb_refl in E. discriminate.
Qed.

End KeysFacts.

Section Grouping.
Context {K X Y : Type} `{EqbOk K}.
Variable key : X -> K.
Variable val : X -> Y.

Lemma dict_get_append (k k' : K) (y : Y) (d : dict K (list Y)) :
  dict_get k (dict_append k' y d)
  = if eqb k' k
    then Some (match dict_get k d with
               | Some l => l ++ [y]
               | None => [y]
               end)
    else dict_get k d.
Proof.
  unfold dict_append. destruct (eqb k' k) eqn:E.
  - apply eqb_ok in E. subst k'.
    destruct (dict_get k d); apply dict_get_set_same.
  - apply eqb_neq in E.
    destruct (dict_get k' d); now apply dict_get_set_other.
Qed.


Lemma NoDup_keys_append (k : K) (y : Y) (d : dict K (list Y)) :
  NoDup (keys d) -> NoDup (keys (dict_append k y d)).
Proof.
  intro N. unfold dict_append.
  destruct (dict_get k d); now apply NoDup_keys_dict_set.
Qed.

Lemma NoDup_keys_group (xs : list X) (d : dict K (list Y)) :
  NoDup (keys d) -> NoDup (keys (fold_left (group_step key val) xs d)).
Proof.
  revert d. induction xs as [|x xs IH]; intros d N; [exact N|].
  cbn. apply IH. now apply NoDup_keys_append.
Qed.

(** What a grouping loop leaves under a key: the values of the items
    with that key, in their order, after what was there before. *)
Lemma dict_get_group (k : K) (xs : list X) (d : dict K (list Y)) :
  dict_get k (fold_left (group_step key val) xs d)
  = match dict_get k d, map val (filter (fun x => eqb (key x) k) xs) with
    | Some l0, l => Some (l0 ++ l)
    | None, [] => None
    | None, l => Some l
    end.
Proof.
  revert d. induction xs as [|x xs IH]; intros d.
  - cbn. destruct (dict_get k d); [now rewrite app_nil_r | reflexivity].
  - cbn [fold_left filter]. rewrite IH. unfold group_step.
    rewrite dict_get_append. destruct (eqb (key x) k); [|reflexivity].
    cbn [map]. destruct (dict_get k d); [now rewrite <- app_assoc|].
    reflexivity.
Qed.

End Grouping.
(** ** Manual entries *)

Lemma parse_manual_seven (e : str) :
  seven_parts e = true <-> exists p, parse_manual e = Some p.
Proof.
  unfold seven_parts, parse_manual.
  destruct (split 59%N e) as [|p1 [|p2 [|p3 [|p4 [|p5 [|p6 [|p7 [|p8 l]]]]]]]];
    cbn; split; try discriminate; try (intros [p E]; discriminate).
  - intros _. eauto.
  - reflexivity.
Qed.

Lemma collect_entry_eq (e : str) (d : data) (w : world) :
  collect_entry e d w
  = match parse_manual e with
    | Some p => (OK (dict_append (Some (fst p)) (snd p) d), w)
    | None => (OK d, World (files w) (stdout w ++ [SkippingMalformed e]))
    end.
Proof.
  unfold collect_entry, parse_manual.
  destruct (split 59%N e) as [|p1 [|p2 [|p3 [|p4 [|p5 [|p6 [|p7 [|p8 l]]]]]]]];
    reflexivity.
Qed.

Lemma collect_loop_eq (entries : list str) (d : data) (w : world) :
  collect_loop entries d w
  = (OK (fold_left (group_step (fun p => Some (fst p)) snd) (parsed entries) d),
     World (files w)
           (stdout w
            ++ map SkippingMalformed
                 (filter (fun e => negb (seven_parts e)) entries))).
Proof.
  revert d w. induction entries as [|e entries IH]; intros d w.
  - cbn. rewrite app_nil_r. now destruct w.
  - cbn [collect_loop]. unfold bind. rewrite collect_entry_eq.
    cbn [parsed flat_map filter].
    destruct (parse_manual e) as [p|] eqn:P.
    + assert (S : seven_parts e = true) by (apply parse_manual_seven; eauto).
      rewrite S. cbn [negb]. unfold OK. rewrite IH.
      cbn [app fold_left]. reflexivity.
    + assert (S : seven_parts e = false).
      { destruct (seven_parts e) eqn:S; [|reflexivity].
        apply parse_manual_seven in S as [p S]. congruence. }
      rewrite S. cbn [negb]. unfold OK. rewrite IH.
      cbn [app fold_left map files stdout]. now rewrite <- app_assoc.
Qed.


(** ** CSV rows *)

Lemma map_fst_combine {A B} (l : list A) (l' : list B) :
  map fst (combine l l') = firstn (length l') l.
Proof.
  revert l'. induction l as [|a l IH]; intros [|b l']; cbn;
    try reflexivity.
  now rewrite IH.
Qed.

Lemma in_keys_fold_set {K V X} `{EqbOk K} (f : X -> K) (g : X -> V)
    (k : K) (xs : list X) (d : dict K V) :
  In k (keys (fold_left (fun d x => dict_set (f x) (g x) d) xs d))
  <-> In k (map f xs) \/ In k (keys d).
Proof.
  revert d. induction xs as [|x xs IH]; intros d; cbn [fold_left map].
  - cbn. tauto.
  - rewrite IH, in_keys_dict_set. cbn. intuition congruence.
Qed.

Lemma in_keys_zip_dict (k : str) (fieldnames row : list str) :
  In k (keys (zip_dict fieldnames row))
  <-> In k (firstn (length row) fieldnames).
Proof.
  unfold zip_dict.
  pose proof (in_keys_fold_set (V := cell) fst (fun kv => Some (snd kv)) k
                (combine fieldnames row) []) as P.
  cbv beta in P. rewrite P, map_fst_combine. cbn. tauto.
Qed.

(** A row read by [csv.DictReader] has every column of the header. *)
Lemma DictReader_row_keys (k : str) (fieldnames row : list str) :
  In k fieldnames -> In k (keys (cells (DictReader_row fieldnames row))).
Proof.
  intro I. unfold DictReader_row.
  destruct (length fieldnames <? length row) eqn:L1; cbn [cells].
  - apply Nat.ltb_lt in L1. apply in_keys_zip_dict.
    rewrite firstn_all2 by lia. exact I.
  - apply Nat.ltb_ge in L1.
    destruct (length row <? length fieldnames) eqn:L2; cbn [cells].
    + pose proof (in_keys_fold_set (V := cell) (fun k => k) (fun _ => None) k
                    (skipn (length row) fieldnames)
                    (zip_dict fieldnames row)) as P.
      cbv beta in P. rewrite P, map_id, in_keys_zip_dict.
      rewrite <- (firstn_skipn (length row) fieldnames) in I.
      apply in_app_or in I. tauto.
    + apply Nat.ltb_ge in L2. apply in_keys_zip_dict.
      rewrite firstn_all2 by lia. exact I.
Qed.

Lemma DictReader_rows_keys (k : str) (fieldnames : list str)
    (rows : list (list str)) (r : entry) :
  In k fieldnames -> In r (DictReader_rows fieldnames rows) ->
  In k (keys (cells r)).
Proof.
  intros I R. unfold DictReader_rows in R. apply in_map_iff in R as (row & <- & _).
  now apply DictReader_row_keys.
Qed.

Lemma group_rows_eq (rows : list entry) (d : data) :
  (forall r, In r rows -> In (lit "topic") (keys (cells r))) ->
  group_rows rows d
  = OK (fold_left (group_step topic_cell (fun r => r)) rows d).
Proof.
  revert d. induction rows as [|r rows IH]; intros d A; [reflexivity|].
  cbn [group_rows fold_left]. unfold getitem, group_step at 2, topic_cell, get.
  destruct (dict_get (lit "topic") (cells r)) as [c|] eqn:G.
  - cbn [rbind OK]. apply IH. intros r' I. apply A. now right.
  - apply dict_get_None in G. destruct G. apply A. now left.
Qed.

Lemma existsb_eqb_In {A} `{EqbOk A} (x : A) (l : list A) :
  existsb (eqb x) l = true <-> In x l.
Proof.
  rewrite existsb_exists. split.
  - intros (y & I & E). apply eqb_ok in E. now subst.
  - intro I. exists x. split; [exact I | apply eqb_refl].
Qed.

Lemma load_data_from_csv_eq (csv_reader : str -> list (list str))
    (csv_path text : str) (w : world) :
  dict_get csv_path (files w) = Some text ->
  load_data_from_csv csv_reader csv_path w
  = let out := fun names =>
                 World (files w) (stdout w ++ [DetectedColumns names]) in
    match csv_reader (decode_utf8_sig text) with
    | [] => (Raise TypeError, out None)
    | header :: body =>
        if existsb (eqb (lit "topic")) header
        then (OK (fold_left (group_step topic_cell (fun r => r))
                    (DictReader_rows header body) []),
              out (Some header))
        else (Raise (ValueError missing_topic_msg), out (Some header))
    end.
Proof.
  intro G. unfold load_data_from_csv, bind, read_file. rewrite G.
  unfold OK. cbv beta iota.
  destruct (csv_reader (decode_utf8_sig text)) as [|header body];
    [reflexivity|].
  cbn [hd_error tl print]. cbv beta iota.
  destruct (existsb (eqb (lit "topic")) header) eqn:E; [|reflexivity].
  cbn [negb]. unfold lift. rewrite group_rows_eq; [reflexivity|].
  intros r R. apply DictReader_rows_keys with (fieldnames := header) (rows := body);
    [|exact R].
  now apply existsb_eqb_In.
Qed.
(** ** Rendering *)

Lemma bracketed (pre p a b c : str) :
  pre = 91%N :: p ->
  pre ++ a ++ b ++ c ++ lit ")" = 91%N :: (p ++ a ++ b ++ c) ++ [41%N].
Proof.
  intros ->. cbn [app]. f_equal. now rewrite <- !app_assoc.
Qed.

(** A badge is empty or runs from [[] to [)]. *)
Lemma code_badge_shape (code_url : str) :
  generate_code_badge code_url = []
  \/ exists mid : str, generate_code_badge code_url = 91%N :: mid ++ [41%N].
Proof.
  unfold generate_code_badge.
  destruct (contains (lit "github.com") code_url); [right | now left].
  unfold code_badge_of. eexists.
  apply bracketed. reflexivity.
Qed.

Lemma arxiv_badge_shape (arxiv_url : str) :
  generate_arxiv_badge arxiv_url = []
  \/ exists mid : str, generate_arxiv_badge arxiv_url = 91%N :: mid ++ [41%N].
Proof.
  unfold generate_arxiv_badge.
  destruct (contains (lit "arxiv.org") arxiv_url
            || contains (lit "ar5iv.labs") arxiv_url); [right | now left].
  unfold arxiv_badge_of. eexists.
  apply bracketed. reflexivity.
Qed.

(** The badge cell: the badges that are there, with one space between
    two of them. *)
Lemma badge_cell_cases (cb ab : str) :
  (cb = [] \/ exists m, cb = 91%N :: m ++ [41%N]) ->
  (ab = [] \/ exists m, ab = 91%N :: m ++ [41%N]) ->
  badge_cell cb ab = match cb, ab with
                     | [], _ => ab
                     | _, [] => cb
                     | _, _ => cb ++ lit " " ++ ab
                     end.
Proof.
  unfold badge_cell.
  intros [->|[m1 ->]] [->|[m2 ->]].
  - reflexivity.
  - cbn [app lit list_ascii_of_string map].
    unfold strip. change (N_of_ascii " " :: 91%N :: m2 ++ [41%N])
      with ((N_of_ascii " " :: 91%N :: m2) ++ [41%N]).
    rewrite rstrip_by_keep by reflexivity. reflexivity.
  - rewrite app_nil_r. unfold strip.
    change ((91%N :: m1 ++ [41%N]) ++ lit " ")
      with (((91%N :: m1) ++ [41%N]) ++ lit " ").
    rewrite rstrip_by_tail by reflexivity. reflexivity.
  - change ((91%N :: m1 ++ [41%N]) ++ lit " " ++ 91%N :: m2 ++ [41%N])
      with (91%N :: (m1 ++ [41%N]) ++ lit " " ++ (91%N :: m2) ++ [41%N]).
    rewrite (app_assoc (lit " ")), (app_assoc (m1 ++ [41%N])).
    now rewrite strip_fixed.
Qed.

Lemma render_row_eq (e : entry) (code_url arxiv_url : str)
    (title authors : cell) :
  dict_get (lit "code") (cells e) = Some (Some code_url) ->
  get e (lit "arxiv page") (Some []) = Some arxiv_url ->
  dict_get (lit "title") (cells e) = Some title ->
  dict_get (lit "authors") (cells e) = Some authors ->
  render_row e
  = OK (row_text
          (match get e (lit "project page") None with
           | Some (c :: page) => linked_title (fmt title) (c :: page)
           | _ => fmt title
           end)
          (fmt authors)
          (badge_cell (generate_code_badge code_url)
             (generate_arxiv_badge arxiv_url))
          (fmt (get e (lit "summary") (Some [])))).
Proof.
  intros C A T U. unfold render_row, getitem.
  rewrite C. cbn [rbind OK as_str]. rewrite A. cbn [rbind OK as_str].
  rewrite T. cbn [rbind OK]. rewrite U.
  unfold get. destruct (dict_get (lit "project page") (cells e)) as [[[|c page]|]|];
    reflexivity.
Qed.
Lemma render_row_no_code (e : entry) :
  dict_get (lit "code") (cells e) = None ->
  render_row e = Raise (KeyError (lit "code")).
Proof. intro G. unfold render_row, getitem. now rewrite G. Qed.

Lemma render_rows_fail (e : entry) (err : exn) (entries : list entry)
    (table : str) :
  In e entries -> render_row e = Raise err ->
  exists err', render_rows table entries = Raise err'.
Proof.
  revert table. induction entries as [|x entries IH]; intros table I R;
    [contradiction|].
  cbn [render_rows]. destruct (render_row x) as [err0|row] eqn:X.
  - now exists err0.
  - cbn [rbind OK]. destruct I as [->|I]; [|now apply IH].
    unfold Raise in R. congruence.
Qed.

Lemma render_tables_fail (e : entry) (err : exn) (t : topic)
    (entries : list entry) (d : data) (tables : dict topic str) :
  In (t, entries) d -> In e entries -> render_row e = Raise err ->
  exists err', render_tables tables d = Raise err'.
Proof.
  revert tables. induction d as [|[t0 es] d IH]; intros tables I Ie R;
    [contradiction|].
  cbn [render_tables]. destruct (render_rows table_header es) as [err0|tb] eqn:X.
  - now exists err0.
  - cbn [rbind OK]. destruct I as [I|I]; [|now apply IH].
    injection I as -> ->.
    destruct (render_rows_fail e err entries table_header Ie R) as [err' Q].
    unfold Raise in Q. congruence.
Qed.

(** When every record fails with the same error, so does the whole
    rendering, provided there is a record at all. *)
Lemma render_rows_all_fail (err : exn) (entries : list entry) (table : str) :
  (forall e, In e entries -> render_row e = Raise err) ->
  entries <> [] -> render_rows table entries = Raise err.
Proof.
  intros A N. destruct entries as [|e entries]; [contradiction|].
  cbn [render_rows]. rewrite (A e) by now left. reflexivity.
Qed.

Lemma render_tables_all_fail (err : exn) (d : data)
    (tables : dict topic str) :
  (forall t entries e, In (t, entries) d -> In e entries ->
                       render_row e = Raise err) ->
  (exists t entries e, In (t, entries) d /\ In e entries) ->
  render_tables tables d = Raise err.
Proof.
  revert tables. induction d as [|[t0 es] d IH]; intros tables A E.
  - destruct E as (t & entries & e & [] & _).
  - cbn [render_tables]. destruct es as [|e0 es].
    + cbn [render_rows rbind OK]. apply IH.
      * intros t entries e I Ie. apply (A t entries e); [now right | exact Ie].
      * destruct E as (t & entries & e & [I|I] & Ie).
        -- injection I as _ <-. contradiction.
        -- now exists t, entries, e.
    + rewrite (render_rows_all_fail err (e0 :: es)); [reflexivity| |discriminate].
      intros e Ie. apply (A t0 (e0 :: es) e); [now left | exact Ie].
Qed.

Section DictIn.
Context {K V : Type} `{EqbOk K}.

Lemma In_dict_get (k : K) (v : V) (d : dict K V) :
  NoDup (keys d) -> In (k, v) d -> dict_get k d = Some v.
Proof.
  induction d as [|[k1 v1] d IH]; intros N I; [contradiction|].
  cbn in N. inversion N as [|? ? N1 N2]; subst. cbn.
  destruct I as [I|I].
  - injection I as -> ->. now rewrite eqb_refl.
  - destruct (eqb k k1) eqn:E; [|now apply IH].
    apply eqb_ok in E. subst k1. destruct N1.
    apply in_map_iff. now exists (k, v).
Qed.
End DictIn.

Section GroupMembers.
Context {K X Y : Type} `{EqbOk K}.
Variable key : X -> K.
Variable val : X -> Y.

(** Every member of a group comes from an item with the key of the
    group. *)
Lemma group_members (k : K) (l : list Y) (xs : list X) (y : Y) :
  In (k, l) (fold_left (group_step key val) xs []) -> In y l ->
  exists x, In x xs /\ key x = k /\ val x = y.
Proof.
  intros I Iy.
  apply In_dict_get in I; [|apply NoDup_keys_group; constructor].
  rewrite dict_get_group in I. cbn [dict_get] in I.
  assert (L : l = map val (filter (fun x => eqb (key x) k) xs)).
  { destruct (map val (filter (fun x => eqb (key x) k) xs));
      [discriminate | now injection I]. }
  subst l. apply in_map_iff in Iy as (x & <- & Ix).
  apply filter_In in Ix as [Ix E]. apply eqb_ok in E. now exists x.
Qed.

(** Every item is a member of the group of its key. *)
Lemma group_covers (x : X) (xs : list X) :
  In x xs ->
  exists l, In (key x, l) (fold_left (group_step key val) xs [])
            /\ In (val x) l.
Proof.
  intro I.
  assert (M : In (val x) (map val (filter (fun x' => eqb (key x') (key x)) xs))).
  { apply in_map. apply filter_In. split; [exact I | apply eqb_refl]. }
  pose proof (dict_get_group key val (key x) xs []) as G.
  cbn [dict_get] in G.
  destruct (map val (filter (fun x' => eqb (key x') (key x)) xs)) as [|y l] eqn:Q;
    [contradiction|].
  exists (y :: l). split; [|exact M]. now apply dict_get_Some_In.
Qed.
End GroupMembers.

Lemma in_firstn {A} (x : A) (n : nat) (l : list A) :
  In x (firstn n l) -> In x l.
Proof.
  intro I. rewrite <- (firstn_skipn n l). apply in_or_app. now left.
Qed.

Lemma in_skipn {A} (x : A) (n : nat) (l : list A) :
  In x (skipn n l) -> In x l.
Proof.
  intro I. rewrite <- (firstn_skipn n l). apply in_or_app. now right.
Qed.

(** A row read by [csv.DictReader] has no column beyond the header. *)
Lemma DictReader_row_keys_inv (k : str) (fieldnames row : list str) :
  In k (keys (cells (DictReader_row fieldnames row))) -> In k fieldnames.
Proof.
  unfold DictReader_row.
  destruct (length fieldnames <? length row) eqn:L1; cbn [cells].
  - intro I. apply in_keys_zip_dict in I. now apply in_firstn in I.
  - destruct (length row <? length fieldnames) eqn:L2; cbn [cells].
    + pose proof (in_keys_fold_set (V := cell) (fun k => k) (fun _ => None) k
                    (skipn (length row) fieldnames)
                    (zip_dict fieldnames row)) as P.
      cbv beta in P. rewrite P, map_id, in_keys_zip_dict.
      intros [I|I]; [now apply in_skipn in I | now apply in_firstn in I].
    + intro I. apply in_keys_zip_dict in I. now apply in_firstn in I.
Qed.
(** ** Sections *)



(** A rendered row ends its line. *)
Lemma render_row_line (e : entry) (row : str) :
  render_row e = OK row -> exists l : str, row = l ++ nl.
Proof.
  unfold render_row. intro R.
  destruct (getitem e (lit "code")) as [?|code]; [discriminate|].
  cbn [rbind] in R. destruct (as_str code) as [?|code_url]; [discriminate|].
  cbn [rbind] in R.
  destruct (as_str (get e (lit "arxiv page") (Some []))) as [?|arxiv_url];
    [discriminate|].
  cbn [rbind] in R. destruct (getitem e (lit "title")) as [?|title];
    [discriminate|].
  cbn [rbind] in R.
  destruct (if truthy (get e (lit "project page") None)
            then rbind (getitem e (lit "project page"))
                   (fun page => OK (linked_title (fmt title) (fmt page)))
            else OK (fmt title)) as [?|title']; [discriminate|].
  cbn [rbind] in R. destruct (getitem e (lit "authors")) as [?|authors];
    [discriminate|].
  cbn [rbind] in R. injection R as <-. unfold row_text.
  eexists. rewrite !app_assoc. reflexivity.
Qed.

Lemma render_rows_ok (entries : list entry) (table table' : str) :
  render_rows table entries = OK table' ->
  exists ls : list str,
    Forall2 (fun e l => render_row e = OK (l ++ nl)) entries ls
    /\ table' = table ++ flat_map (fun l => l ++ nl) ls.
Proof.
  revert table. induction entries as [|e entries IH]; intros table R.
  - injection R as <-. exists []. split; [constructor | now rewrite app_nil_r].
  - cbn [render_rows] in R. destruct (render_row e) as [?|row] eqn:X;
      [discriminate|].
    cbn [rbind] in R. destruct (render_row_line e row X) as [l ->].
    destruct (IH _ R) as (ls & F & ->). exists (l :: ls). split.
    + now constructor.
    + cbn [flat_map]. now rewrite <- !app_assoc.
Qed.

Lemma render_tables_ok (d : data) (tables0 tables : dict topic str) :
  NoDup (keys tables0 ++ keys d) ->
  render_tables tables0 d = OK tables ->
  exists sections : list (topic * list str),
    map fst sections = keys d
    /\ Forall2 (fun g s =>
                  fst s = fst g
                  /\ Forall2 (fun e l => render_row e = OK (l ++ nl))
                             (snd g) (snd s)) d sections
    /\ tables
       = tables0
         ++ map (fun s => (fst s,
                           table_header ++ flat_map (fun l => l ++ nl) (snd s)))
                sections.
Proof.
  revert tables0. induction d as [|[t es] d IH]; intros tables0 N R.
  - injection R as <-. exists []. repeat split; [constructor|].
    now rewrite app_nil_r.
  - cbn [render_tables] in R.
    destruct (render_rows table_header es) as [?|table] eqn:X; [discriminate|].
    cbn [rbind] in R.
    assert (A : dict_get t tables0 = None).
    { apply dict_get_None. intro I. cbn in N.
      apply NoDup_remove_2 in N. apply N. apply in_or_app. now left. }
    rewrite (dict_set_absent t table tables0 A) in R.
    destruct (IH (tables0 ++ [(t, table)])) as (sections & K & F & ->).
    + unfold keys in *. rewrite map_app. cbn [map fst keys] in *.
      rewrite <- app_assoc. exact N.
    + exact R.
    + destruct (render_rows_ok es table_header table X) as (ls & Fl & ->).
      exists ((t, ls) :: sections). split; [|split].
      * cbn. now rewrite K.
      * constructor; [now split | exact F].
      * cbn [map fst snd]. now rewrite <- app_assoc.
Qed.
(** ** Lines *)



Section Kept.
Variable p : char -> bool.






End Kept.










(** The records of manual entries have all the fields a row needs. *)
Lemma manual_record_renders (title authors code arxiv_page project_page
    summary : str) :
  exists row : str,
    render_row (manual_record title authors code arxiv_page project_page
                  summary) = OK row.
Proof.
  eexists.
  apply (render_row_eq _ (strip code) (strip arxiv_page)
           (Some (strip title)) (Some (strip authors)));
    reflexivity.
Qed.


(** ** Trailing slashes *)




(** The parts of a URL that contains [github.com]: what [rstrip] keeps
    ends in a character other than the slash, and the rest is slashes. *)
Lemma rstrip_github (code_url : str) :
  contains (lit "github.com") code_url = true ->
  exists (body : str) (x : char) (slashes : str),
    code_url = (body ++ [x]) ++ slashes
    /\ x <> 47%N /\ Forall (eq 47%N) slashes
    /\ rstrip (lit "/") code_url = body ++ [x].
Proof.
  intro C. unfold rstrip.
  destruct (rstrip_by_spec (fun c => existsb (N.eqb c) (lit "/")) code_url)
    as (tail & E & F & L).
  set (kept := rstrip_by (fun c => existsb (N.eqb c) (lit "/")) code_url) in *.
  assert (T : Forall (eq 47%N) tail).
  { apply Forall_forall. intros y I.
    rewrite forallb_forall in F. specialize (F y I). cbn in F.
    rewrite orb_false_r in F. apply N.eqb_eq in F. now symmetry. }
  destruct (rev kept) as [|x rbody] eqn:R.
  - exfalso. assert (kept = []).
    { rewrite <- (rev_involutive kept), R. reflexivity. }
    rewrite H in E. cbn in E. subst tail.
    apply contains_iff in C as (a & b & C).
    rewrite Forall_forall in T. 
    assert (I : In 103%N code_url).
    { rewrite C. apply in_or_app. right. left. reflexivity. }
    specialize (T _ I). discriminate.
  - assert (K : kept = rev rbody ++ [x]).
    { rewrite <- (rev_involutive kept), R. reflexivity. }
    exists (rev rbody), x, tail. rewrite <- K. split; [exact E|].
    split; [|split; [exact T | reflexivity]].
    specialize (L _ _ K). cbn in L. rewrite orb_false_r in L.
    intros ->. discriminate.
Qed.

(** * Main theorems *)

(** ** Badge generator *)



(** C5. A paper URL that contains [arxiv.org] or [ar5iv.labs] gets a static
    arXiv badge that shows the last path segment of the URL, the text after
    its last slash, and links to the URL; [https://arxiv.org/abs/2403.12345]
    shows [2403.12345]. Any other URL gets the empty text. *)
Theorem generate_arxiv_badge_spec :
  (forall arxiv_url : str,
     contains (lit "arxiv.org") arxiv_url = true
     \/ contains (lit "ar5iv.labs") arxiv_url = true ->
     exists arxiv_id : str,
       generate_arxiv_badge arxiv_url
       = lit "[![arXiv](https://img.shields.io/badge/arXiv-" ++ arxiv_id
         ++ lit "-b31b1b.svg?style=for-the-badge)](" ++ arxiv_url ++ lit ")"
       /\ ~ In 47%N arxiv_id
       /\ (arxiv_url = arxiv_id
           \/ exists pre : str, arxiv_url = pre ++ 47%N :: arxiv_id))
  /\ generate_arxiv_badge (lit "https://arxiv.org/abs/2403.12345")
     = lit "[![arXiv](https://img.shields.io/badge/arXiv-2403.12345-b31b1b.svg?style=for-the-badge)](https://arxiv.org/abs/2403.12345)"
  /\ (forall arxiv_url : str,
        contains (lit "arxiv.org") arxiv_url = false ->
        contains (lit "ar5iv.labs") arxiv_url = false ->
        generate_arxiv_badge arxiv_url = []).
Proof.
  split; [|split].
  - intros arxiv_url C. exists (last_part (split 47%N arxiv_url)).
    split; [|apply last_part_spec].
    unfold generate_arxiv_badge.
    replace (contains (lit "arxiv.org") arxiv_url
             || contains (lit "ar5iv.labs") arxiv_url) with true.
    + reflexivity.
    + symmetry. apply orb_true_iff. exact C.
  - vm_compute. reflexivity.
  - intros arxiv_url C1 C2. unfold generate_arxiv_badge. now rewrite C1, C2.
Qed.

Lemma generate_arxiv_badge_spec_witness :
  (exists arxiv_id : str,
     generate_arxiv_badge (lit "https://ar5iv.labs.arxiv.org/html/2311.00001")
     = lit "[![arXiv](https://img.shields.io/badge/arXiv-" ++ arxiv_id
       ++ lit "-b31b1b.svg?style=for-the-badge)]("
       ++ lit "https://ar5iv.labs.arxiv.org/html/2311.00001" ++ lit ")"
     /\ ~ In 47%N arxiv_id
     /\ (lit "https://ar5iv.labs.arxiv.org/html/2311.00001" = arxiv_id
         \/ exists pre : str,
              lit "https://ar5iv.labs.arxiv.org/html/2311.00001"
              = pre ++ 47%N :: arxiv_id))
  /\ generate_arxiv_badge (lit "https://openreview.net/forum?id=1") = [].
Proof.
  destruct generate_arxiv_badge_spec as (H1 & _ & H3).
  split.
  - apply (H1 (lit "https://ar5iv.labs.arxiv.org/html/2311.00001")).
    right. vm_compute. reflexivity.
  - apply (H3 (lit "https://openreview.net/forum?id=1"));
      vm_compute; reflexivity.
Defined.

(** ** Input loader *)


(** One entry with seven parts among malformed ones. *)
Example collect_manual_data_example :
  collect_manual_data
    [lit "3D; NeRF ; A. Author;https://github.com/o/r;;;fast";
     lit "3D,NeRF,too,few";
     lit "a;b;c;d;e;f;g;h"]
    (World [] [])
  = (OK [(Some (lit "3D"),
          [Entry [ (lit "title", Some (lit "NeRF"));
                   (lit "authors", Some (lit "A. Author"));
                   (lit "code", Some (lit "https://github.com/o/r"));
                   (lit "arxiv page", Some []);
                   (lit "project page", Some []);
                   (lit "summary", Some (lit "fast")) ]
                 None])],
     World [] [SkippingMalformed (lit "3D,NeRF,too,few");
               SkippingMalformed (lit "a;b;c;d;e;f;g;h")]).
Proof. vm_compute. reflexivity. Qed.


(** X10. An empty CSV file stops the load with [TypeError], after the
    line that reports the columns: the file has no header to look the
    [topic] column up in. *)
Lemma load_data_from_csv_empty (csv_reader : str -> list (list str))
    (csv_path text : str) (w : world) :
  dict_get csv_path (files w) = Some text ->
  csv_reader (decode_utf8_sig text) = [] ->
  load_data_from_csv csv_reader csv_path w
  = (Raise TypeError,
     World (files w) (stdout w ++ [DetectedColumns None])).
Proof.
  intros G R. rewrite (load_data_from_csv_eq csv_reader csv_path text w G).
  now rewrite R.
Qed.

Lemma load_data_from_csv_empty_witness :
  load_data_from_csv (fun _ => []) (lit "papers.csv")
    (World [(lit "papers.csv", [])] [])
  = (Raise TypeError,
     World [(lit "papers.csv", [])] [DetectedColumns None]).
Proof.
  apply (load_data_from_csv_empty (fun _ => []) (lit "papers.csv") []
           (World [(lit "papers.csv", [])] [])); reflexivity.
Defined.

(** The groups of the rows of an example file: blank rows are passed
    over and the topics come in the order of their first row. *)
Example load_data_from_csv_example :
  fst (load_data_from_csv
         (fun _ => [[lit "topic"; lit "title"]; [lit "3D"; lit "NeRF"]; [];
                    [lit "2D"; lit "SAM"]; [lit "3D"]])
         (lit "papers.csv")
         (World [(lit "papers.csv", [])] []))
  = OK [(Some (lit "3D"),
         [Entry [(lit "topic", Some (lit "3D"));
                 (lit "title", Some (lit "NeRF"))] None;
          Entry [(lit "topic", Some (lit "3D")); (lit "title", None)] None]);
        (Some (lit "2D"),
         [Entry [(lit "topic", Some (lit "2D"));
                 (lit "title", Some (lit "SAM"))] None])].
Proof. vm_compute. reflexivity. Qed.

(** ** Table renderer *)

(** C9. The row of a record shows, between bars, the title, the authors,
    one cell for both badges and the summary. The title is a link to the
    project page when the record has a non-empty one, and the plain title
    otherwise. The badge cell is the code badge, a space and the paper
    badge, stripped: so the badges that are there, with one space between
    two of them. *)
Theorem render_row_spec (e : entry) (code_url arxiv_url : str)
    (title authors : cell) :
  dict_get (lit "code") (cells e) = Some (Some code_url) ->
  get e (lit "arxiv page") (Some []) = Some arxiv_url ->
  dict_get (lit "title") (cells e) = Some title ->
  dict_get (lit "authors") (cells e) = Some authors ->
  let shown_title :=
    match get e (lit "project page") None with
    | Some (c :: page) =>
        lit "[" ++ fmt title ++ lit "](" ++ (c :: page) ++ lit ")"
    | _ => fmt title
    end in
  let code_badge := generate_code_badge code_url in
  let arxiv_badge := generate_arxiv_badge arxiv_url in
  let badges := strip (code_badge ++ lit " " ++ arxiv_badge) in
  render_row e
  = OK (lit "| " ++ shown_title ++ lit " | " ++ fmt authors ++ lit " | "
        ++ badges ++ lit " | " ++ fmt (get e (lit "summary") (Some []))
        ++ lit " |" ++ nl)
  /\ badges = match code_badge, arxiv_badge with
              | [], _ => arxiv_badge
              | _, [] => code_badge
              | _, _ => code_badge ++ lit " " ++ arxiv_badge
              end.
Proof.
  intros C A T U shown_title code_badge arxiv_badge badges. split.
  - rewrite (render_row_eq e code_url arxiv_url title authors C A T U).
    reflexivity.
  - apply badge_cell_cases; [apply code_badge_shape | apply arxiv_badge_shape].
Qed.

Lemma render_row_spec_witness :
  let e := Entry [ (lit "title", Some (lit "NeRF"));
                   (lit "authors", Some (lit "A. Author"));
                   (lit "code", Some (lit "https://github.com/o/r"));
                   (lit "arxiv page", Some (lit "https://arxiv.org/abs/2403.1"));
                   (lit "project page", Some (lit "https://o.github.io"));
                   (lit "summary", Some (lit "fast")) ] None in
  render_row e
  = OK (lit "| [NeRF](https://o.github.io) | A. Author | [![GitHub](https://img.shields.io/github/stars/o/r?style=social)](https://github.com/o/r) [![arXiv](https://img.shields.io/badge/arXiv-2403.1-b31b1b.svg?style=for-the-badge)](https://arxiv.org/abs/2403.1) | fast |"
        ++ nl).
Proof.
  intro e.
  destruct (render_row_spec e (lit "https://github.com/o/r")
              (lit "https://arxiv.org/abs/2403.1")
              (Some (lit "NeRF")) (Some (lit "A. Author"))
              eq_refl eq_refl eq_refl eq_refl) as [R _].
  rewrite R. vm_compute. reflexivity.
Defined.

(** C10. [generate_markdown_tables] looks up [code], [title] and
    [authors] without a default, in this order, and the other three
    fields with an empty default. A record without [code] therefore makes
    its row, and with it the whole rendering, fail with a lookup error;
    a CSV file with a [topic] column, no [code] column and at least one
    row loads, and then fails to render with [KeyError] for [code]. A
    record that only lacks the three optional fields gets a row with a
    plain title, the code badge alone and an empty summary. *)
Theorem render_row_lookups :
  (forall e : entry,
     dict_get (lit "code") (cells e) = None ->
     render_row e = Raise (KeyError (lit "code")))
  /\ (forall (e : entry) (code_url arxiv_url : str),
        dict_get (lit "code") (cells e) = Some (Some code_url) ->
        get e (lit "arxiv page") (Some []) = Some arxiv_url ->
        dict_get (lit "title") (cells e) = None ->
        render_row e = Raise (KeyError (lit "title")))
  /\ (forall (e : entry) (code_url arxiv_url : str) (title : cell),
        dict_get (lit "code") (cells e) = Some (Some code_url) ->
        get e (lit "arxiv page") (Some []) = Some arxiv_url ->
        dict_get (lit "title") (cells e) = Some title ->
        dict_get (lit "authors") (cells e) = None ->
        render_row e = Raise (KeyError (lit "authors")))
  /\ (forall (e : entry) (code_url : str) (title authors : cell),
        dict_get (lit "code") (cells e) = Some (Some code_url) ->
        dict_get (lit "title") (cells e) = Some title ->
        dict_get (lit "authors") (cells e) = Some authors ->
        dict_get (lit "arxiv page") (cells e) = None ->
        dict_get (lit "project page") (cells e) = None ->
        dict_get (lit "summary") (cells e) = None ->
        render_row e
        = OK (lit "| " ++ fmt title ++ lit " | " ++ fmt authors ++ lit " | "
              ++ generate_code_badge code_url ++ lit " |  |" ++ nl))
  /\ (forall (d : data) (t : topic) (entries : list entry) (e : entry),
        In (t, entries) d -> In e entries ->
        dict_get (lit "code") (cells e) = None ->
        exists err : exn, generate_markdown_tables d = Raise err)
  /\ (forall (csv_reader : str -> list (list str)) (csv_path text : str)
             (header : list str) (body : list (list str)) (row : list str)
             (w : world),
        dict_get csv_path (files w) = Some text ->
        csv_reader (decode_utf8_sig text) = header :: body ->
        In (lit "topic") header -> ~ In (lit "code") header ->
        In row body -> row <> [] ->
        exists d : data,
          fst (load_data_from_csv csv_reader csv_path w) = OK d
          /\ generate_markdown_tables d = Raise (KeyError (lit "code"))).
Proof.
  split; [|split; [|split; [|split; [|split]]]].
  - exact render_row_no_code.
  - intros e code_url arxiv_url C A T. unfold render_row, getitem.
    rewrite C. cbn [rbind OK as_str]. rewrite A. cbn [rbind OK as_str].
    now rewrite T.
  - intros e code_url arxiv_url title C A T U. unfold render_row, getitem.
    rewrite C. cbn [rbind OK as_str]. rewrite A. cbn [rbind OK as_str].
    rewrite T. cbn [rbind OK]. rewrite U.
    unfold get.
    destruct (dict_get (lit "project page") (cells e)) as [[[|c page]|]|];
      reflexivity.
  - intros e code_url title authors C T U A P S.
    rewrite (render_row_eq e code_url [] title authors C); try assumption.
    + unfold get. rewrite P, S.
      rewrite badge_cell_cases;
        [|apply code_badge_shape | apply arxiv_badge_shape].
      change (generate_arxiv_badge []) with (@nil char).
      unfold row_text. cbn [fmt].
      destruct (generate_code_badge code_url); reflexivity.
    + unfold get. now rewrite A.
  - intros d t entries e I Ie C. unfold generate_markdown_tables.
    apply (render_tables_fail e (KeyError (lit "code")) t entries d []);
      try assumption.
    now apply render_row_no_code.
  - intros csv_reader csv_path text header body row w G R It Nc Ir Nr.
    rewrite (load_data_from_csv_eq csv_reader csv_path text w G), R.
    cbv zeta beta iota.
    replace (existsb (eqb (lit "topic")) header) with true
      by (symmetry; now apply existsb_eqb_In).
    eexists. split; [reflexivity|].
    unfold generate_markdown_tables. apply render_tables_all_fail.
    + intros t entries e I Ie.
      destruct (group_members topic_cell (fun r => r) t entries
                  (DictReader_rows header body) e I Ie) as (r & Rr & _ & <-).
      apply render_row_no_code. apply dict_get_None. intro K.
      unfold DictReader_rows in Rr. apply in_map_iff in Rr as (row' & <- & _).
      apply DictReader_row_keys_inv in K. contradiction.
    + assert (Rr : In (DictReader_row header row) (DictReader_rows header body)).
      { unfold DictReader_rows. apply in_map. apply filter_In.
        split; [exact Ir|]. now destruct row. }
      destruct (group_covers topic_cell (fun r => r) _ _ Rr) as (l & I & Il).
      eauto.
Qed.

Lemma render_row_lookups_witness :
  render_row (Entry [(lit "topic", Some (lit "3D"));
                     (lit "title", Some (lit "NeRF"))] None)
  = Raise (KeyError (lit "code"))
  /\ render_row (Entry [(lit "code", Some (lit "https://github.com/o/r"));
                        (lit "title", Some (lit "NeRF"));
                        (lit "authors", Some (lit "A. Author"))] None)
     = OK (lit "| NeRF | A. Author | [![GitHub](https://img.shields.io/github/stars/o/r?style=social)](https://github.com/o/r) |  |"
           ++ nl)
  /\ exists d : data,
       fst (load_data_from_csv
              (fun _ => [[lit "topic"; lit "title"; lit "authors"];
                         [lit "3D"; lit "NeRF"; lit "A. Author"]])
              (lit "papers.csv")
              (World [(lit "papers.csv", [])] [])) = OK d
       /\ generate_markdown_tables d = Raise (KeyError (lit "code")).
Proof.
  destruct render_row_lookups as (H1 & _ & _ & H4 & _ & H6).
  split; [|split].
  - apply H1. reflexivity.
  - rewrite (H4 _ (lit "https://github.com/o/r") (Some (lit "NeRF"))
               (Some (lit "A. Author"))); reflexivity.
  - apply (H6 _ (lit "papers.csv") [] [lit "topic"; lit "title"; lit "authors"]
              [[lit "3D"; lit "NeRF"; lit "A. Author"]]
              [lit "3D"; lit "NeRF"; lit "A. Author"]).
    + reflexivity.
    + reflexivity.
    + left. reflexivity.
    + intros [E|[E|[E|[]]]]; discriminate.
    + left. reflexivity.
    + discriminate.
Defined.



(** ** README patcher *)

Lemma update_readme_present_eq (tables : dict topic str)
    (readme_path before after : str) (w : world) :
  dict_get readme_path (files w) = Some (before ++ token ++ after) ->
  find token (before ++ token ++ after) = Some (length before) ->
  update_readme_with_tables tables readme_path w
  = (OK tt,
     World (dict_set readme_path (before ++ token ++ new_content_of tables)
              (files w))
           (stdout w ++ [ReadmeUpdated readme_path])).
Proof.
  intros G F. unfold update_readme_with_tables, bind, read_file.
  rewrite G. unfold contains, OK. cbv beta iota. rewrite F. cbn [ret].
  rewrite first_part_split1 by exact F. reflexivity.
Qed.

Lemma update_readme_absent_eq (tables : dict topic str)
    (readme_path content : str) (w : world) :
  dict_get readme_path (files w) = Some content ->
  contains token content = false ->
  update_readme_with_tables tables readme_path w
  = (OK tt,
     World (dict_set readme_path
              (content ++ nl ++ token ++ new_content_of tables) (files w))
           (stdout w ++ [TokenNotFound token readme_path;
                         ReadmeUpdated readme_path])).
Proof.
  intros G C. unfold update_readme_with_tables, bind, read_file.
  rewrite G. unfold OK. cbv beta iota. rewrite C.
  unfold print, write_file, ret, OK. cbn [files stdout].
  now rewrite <- app_assoc.
Qed.





(** C3. Patching is idempotent: when a first run has patched the target
    file, a second run with the same tables succeeds and leaves every file
    as the first run left it, whether or not the marker was there before
    the first run. *)
Theorem update_readme_idempotent (tables : dict topic str)
    (readme_path content : str) (w : world) :
  dict_get readme_path (files w) = Some content ->
  let w1 := snd (update_readme_with_tables tables readme_path w) in
  let w2 := snd (update_readme_with_tables tables readme_path w1) in
  fst (update_readme_with_tables tables readme_path w) = OK tt
  /\ fst (update_readme_with_tables tables readme_path w1) = OK tt
  /\ files w2 = files w1
  /\ dict_get readme_path (files w2) = dict_get readme_path (files w1).
Proof.
  intros G w1 w2.
  assert (W : fst (update_readme_with_tables tables readme_path w) = OK tt
              /\ fst (update_readme_with_tables tables readme_path w1) = OK tt
              /\ files w2 = files w1).
  { subst w1 w2. destruct (contains token content) eqn:C.
    - destruct (split1_leftmost token content C)
        as (before & after & E & F & _ & _).
      assert (U := update_readme_present_eq tables readme_path before after w).
      rewrite <- E in U at 1. specialize (U G F). rewrite U. cbn [fst snd].
      rewrite (update_readme_present_eq tables readme_path before
                 (new_content_of tables)).
      + cbn [fst snd files]. repeat split. apply dict_set_twice.
      + cbn [files]. apply dict_get_set_same.
      + now apply find_local with (b := after).
    - rewrite (update_readme_absent_eq tables readme_path content w G C).
      cbn [fst snd].
      assert (F : find token ((content ++ nl) ++ token ++ new_content_of tables)
                  = Some (length (content ++ nl))).
      { rewrite <- app_assoc, length_app. cbn [nl app length].
        rewrite Nat.add_1_r. apply find_after_absent.
        - now apply contains_find_None.
        - apply token_no_newline. }
      rewrite (update_readme_present_eq tables readme_path (content ++ nl)
                 (new_content_of tables)).
      + cbn [fst snd files]. repeat split.
        rewrite dict_set_twice. now rewrite <- app_assoc.
      + cbn [files]. rewrite dict_get_set_same. now rewrite <- app_assoc.
      + exact F. }
  destruct W as (W1 & W2 & W3). repeat split; try assumption.
  now rewrite W3.
Qed.

Lemma update_readme_idempotent_witness :
  let w := World [(lit "README.md", lit "# Papers")] [] in
  let tables := [(Some (lit "3D"), lit "| t |")] in
  let w1 := snd (update_readme_with_tables tables (lit "README.md") w) in
  let w2 := snd (update_readme_with_tables tables (lit "README.md") w1) in
  fst (update_readme_with_tables tables (lit "README.md") w) = OK tt
  /\ fst (update_readme_with_tables tables (lit "README.md") w1) = OK tt
  /\ files w2 = files w1
  /\ dict_get (lit "README.md") (files w2)
     = dict_get (lit "README.md") (files w1).
Proof.
  intros w tables.
  apply (update_readme_idempotent tables (lit "README.md") (lit "# Papers") w).
  reflexivity.
Defined.

(** * Further properties *)

(** ** Runs of the patcher *)

Lemma update_readme_eq (tables : dict topic str) (readme_path : str)
    (w : world) :
  update_readme_with_tables tables readme_path w
  = match dict_get readme_path (files w) with
    | None => (Raise (FileNotFoundError readme_path), w)
    | Some content =>
        (OK tt,
         World (dict_set readme_path (updated_text tables content) (files w))
               (stdout w
                ++ (if contains token content then []
                    else [TokenNotFound token readme_path])
                ++ [ReadmeUpdated readme_path]))
    end.
Proof.
  unfold update_readme_with_tables, bind, read_file, updated_text.
  destruct (dict_get readme_path (files w)) as [content|]; [|reflexivity].
  unfold OK. cbv beta iota.
  destruct (contains token content).
  - reflexivity.
  - unfold print, write_file, ret, OK. cbn [files stdout].
    now rewrite <- app_assoc.
Qed.

Lemma contains_token_updated (tables : dict topic str) (content : str) :
  contains token (updated_text tables content) = true.
Proof.
  unfold updated_text. apply contains_iff.
  destruct (contains token content).
  - now exists (first_part (split1 token content)), (new_content_of tables).
  - exists (content ++ nl), (new_content_of tables). now rewrite <- app_assoc.
Qed.

(** Where the leftmost marker of a patched text is. *)
Lemma updated_text_prefix (tables : dict topic str) (content : str) :
  exists before : str,
    (forall tables' : dict topic str,
       updated_text tables' content = before ++ token ++ new_content_of tables')
    /\ forall t : str, find token (before ++ token ++ t) = Some (length before).
Proof.
  unfold updated_text. destruct (contains token content) eqn:C.
  - destruct (split1_leftmost token content C) as (before & after & E & F & _ & P).
    exists before. split.
    + intro tables'. now rewrite P.
    + intro t. now apply find_local with (b := after).
  - exists (content ++ nl). split.
    + intro tables'. now rewrite <- app_assoc.
    + intro t. rewrite <- app_assoc, length_app. cbn [nl app length].
      rewrite Nat.add_1_r. apply find_after_absent.
      * now apply contains_find_None.
      * apply token_no_newline.
Qed.

(** Patching a patched text again: only the new tables count. *)
Lemma updated_text_twice (tables1 tables2 : dict topic str) (content : str) :
  updated_text tables2 (updated_text tables1 content)
  = updated_text tables2 content.
Proof.
  destruct (updated_text_prefix tables1 content) as (before & E & F).
  rewrite (E tables2). unfold updated_text at 1.
  rewrite contains_token_updated. rewrite (E tables1).
  now rewrite first_part_split1 by apply F.
Qed.

(** ** Manual entries always render *)

Lemma render_rows_total (entries : list entry) (table : str) :
  (forall e, In e entries -> exists row, render_row e = OK row) ->
  exists table', render_rows table entries = OK table'.
Proof.
  revert table. induction entries as [|e entries IH]; intros table A.
  - now exists table.
  - cbn [render_rows]. destruct (A e (or_introl eq_refl)) as [row ->].
    cbn [rbind OK]. apply IH. intros e' I. apply A. now right.
Qed.

Lemma render_tables_total (d : data) (tables0 : dict topic str) :
  (forall t entries e, In (t, entries) d -> In e entries ->
                       exists row, render_row e = OK row) ->
  exists tables, render_tables tables0 d = OK tables.
Proof.
  revert tables0. induction d as [|[t es] d IH]; intros tables0 A.
  - now exists tables0.
  - cbn [render_tables].
    destruct (render_rows_total es table_header) as [table ->].
    + intros e I. apply (A t es e); [now left | exact I].
    + cbn [rbind OK]. apply IH. intros t' es' e I Ie.
      apply (A t' es' e); [now right | exact Ie].
Qed.

Lemma parsed_records (p : str * entry) (entries : list str) :
  In p (parsed entries) ->
  exists title authors code arxiv_page project_page summary : str,
    snd p = manual_record title authors code arxiv_page project_page summary.
Proof.
  intro I. unfold parsed in I. apply in_flat_map in I as (e & _ & I).
  unfold parse_manual in I.
  destruct (split 59%N e) as [|p1 [|p2 [|p3 [|p4 [|p5 [|p6 [|p7 [|p8 l]]]]]]]];
    try contradiction.
  destruct I as [<-|[]]. cbn [snd]. eauto 7.
Qed.


(** ** Runs of the whole script *)

Lemma load_keeps_files (csv_reader : str -> list (list str))
    (csv_path : str) (w : world) :
  files (snd (load_data_from_csv csv_reader csv_path w)) = files w.
Proof.
  unfold load_data_from_csv, bind, read_file.
  destruct (dict_get csv_path (files w)) as [text|]; [|reflexivity].
  unfold OK. cbv beta iota.
  destruct (csv_reader (decode_utf8_sig text)) as [|header body];
    [reflexivity|].
  cbn [hd_error tl print]. cbv beta iota.
  destruct (existsb (eqb (lit "topic")) header); [|reflexivity].
  cbn [negb]. unfold lift. reflexivity.
Qed.

Lemma main_input_keeps_files (csv_reader : str -> list (list str))
    (args : arguments) (w : world) :
  files (snd (main_input csv_reader args w)) = files w.
Proof.
  unfold main_input.
  destruct (arg_csv args) as [[|c p]|], (arg_entries args) as [[|e es]|];
    try reflexivity; try apply load_keeps_files;
    unfold collect_manual_data; now rewrite collect_loop_eq.
Qed.

(** The steps of [main] after the input, spelled out. *)
Lemma main_eq (csv_reader : str -> list (list str)) (args : arguments)
    (w : world) :
  main csv_reader args w
  = let w1 := snd (main_input csv_reader args w) in
    match fst (main_input csv_reader args w) with
    | inl e => (inl e, w1)
    | inr d =>
        match generate_markdown_tables d with
        | inl e => (inl e, w1)
        | inr tables =>
            match dict_get (arg_output args) (files w1) with
            | None => (Raise (FileNotFoundError (arg_output args)), w1)
            | Some content =>
                (OK tt,
                 World (dict_set (arg_output args)
                          (updated_text tables content) (files w1))
                       (stdout w1
                        ++ (if contains token content then []
                            else [TokenNotFound token (arg_output args)])
                        ++ [ReadmeUpdated (arg_output args);
                            TablesWritten (arg_output args)]))
            end
        end
    end.
Proof.
  unfold main. fold (main_input csv_reader args). unfold bind at 1.
  destruct (main_input csv_reader args w) as [[e|d] w1]; [reflexivity|].
  cbn [fst snd]. unfold bind at 1, lift.
  destruct (generate_markdown_tables d) as [e|tables]; [reflexivity|].
  unfold bind at 1. rewrite update_readme_eq.
  destruct (dict_get (arg_output args) (files w1)) as [content|];
    [|reflexivity].
  unfold OK, print. cbn [files stdout]. rewrite <- !app_assoc. reflexivity.
Qed.

Lemma main_files_cases (csv_reader : str -> list (list str))
    (args : arguments) (w : world) :
  (exists e, fst (main csv_reader args w) = Raise e
             /\ files (snd (main csv_reader args w)) = files w)
  \/ (exists (tables : dict topic str) (content : str),
        fst (main csv_reader args w) = OK tt
        /\ dict_get (arg_output args) (files w) = Some content
        /\ files (snd (main csv_reader args w))
           = dict_set (arg_output args) (updated_text tables content)
               (files w)
        /\ exists out : list message,
             stdout (snd (main csv_reader args w))
             = out ++ [ReadmeUpdated (arg_output args);
                       TablesWritten (arg_output args)]).
Proof.
  rewrite main_eq. cbv zeta.
  pose proof (main_input_keeps_files csv_reader args w) as K.
  destruct (main_input csv_reader args w) as [[e|d] w1]; cbn [fst snd] in *.
  - left. now exists e.
  - destruct (generate_markdown_tables d) as [e|tables].
    + left. now exists e.
    + rewrite K. destruct (dict_get (arg_output args) (files w)) as [content|].
      * right. exists tables, content. cbn [fst snd files stdout].
        repeat split. eexists. rewrite app_assoc. reflexivity.
      * left. eexists. split; [reflexivity | exact K].
Qed.



(** X2. [main] writes no file but the one named by [--output]: every
    other file holds after the run what it held before, whether the run
    succeeds or fails. *)
Theorem main_touches_only_output (csv_reader : str -> list (list str))
    (args : arguments) (w : world) (path : str) :
  path <> arg_output args ->
  dict_get path (files (snd (main csv_reader args w)))
  = dict_get path (files w).
Proof.
  intro N.
  destruct (main_files_cases csv_reader args w)
    as [(e' & _ & K) | (tables & content & _ & _ & K & _)]; rewrite K.
  - reflexivity.
  - apply dict_get_set_other. congruence.
Qed.

Lemma main_touches_only_output_witness :
  let w := World [(lit "README.md", lit "# Papers");
                  (lit "NOTES.md", lit "keep")] [] in
  let args := Arguments_ None (Some [lit "3D;t;a;;;;s"]) (lit "README.md") in
  dict_get (lit "NOTES.md") (files (snd (main (fun _ => []) args w)))
  = Some (lit "keep").
Proof.
  intros w args.
  rewrite (main_touches_only_output (fun _ => []) args w (lit "NOTES.md")).
  - reflexivity.
  - discriminate.
Defined.

(** X3. After a run of [main] that succeeds, the target file holds the
    marker, and the last two lines printed are the two confirmations. *)
Theorem main_success_leaves_marker (csv_reader : str -> list (list str))
    (args : arguments) (w : world) :
  fst (main csv_reader args w) = OK tt ->
  exists (text : str) (out : list message),
    dict_get (arg_output args) (files (snd (main csv_reader args w)))
    = Some text
    /\ contains token text = true
    /\ stdout (snd (main csv_reader args w))
       = out ++ [ReadmeUpdated (arg_output args);
                 TablesWritten (arg_output args)].
Proof.
  intro S.
  destruct (main_files_cases csv_reader args w)
    as [(e' & F & _) | (tables & content & _ & _ & K & out & O)].
  - rewrite F in S. discriminate.
  - exists (updated_text tables content), out. rewrite K. split; [|split].
    + apply dict_get_set_same.
    + apply contains_token_updated.
    + exact O.
Qed.

Lemma main_success_leaves_marker_witness :
  let w := World [(lit "README.md", lit "# Papers")] [] in
  let args := Arguments_ None (Some [lit "3D;t;a;;;;s"]) (lit "README.md") in
  exists (text : str) (out : list message),
    dict_get (lit "README.md") (files (snd (main (fun _ => []) args w)))
    = Some text
    /\ contains token text = true
    /\ stdout (snd (main (fun _ => []) args w))
       = out ++ [ReadmeUpdated (lit "README.md");
                 TablesWritten (lit "README.md")].
Proof.
  intros w args.
  apply (main_success_leaves_marker (fun _ => []) args w).
  vm_compute. reflexivity.
Defined.






(** X6. Without a source, [main] fails at once with the [ValueError] that
    names the two options, before anything is read, written or printed.
    An empty [--csv] path counts as no path. *)
Theorem main_no_input (csv_reader : str -> list (list str))
    (csv : option str) (entries : option (list str)) (output : str)
    (w : world) :
  csv = None \/ csv = Some [] ->
  entries = None \/ entries = Some [] ->
  main csv_reader (Arguments_ csv entries output) w
  = (Raise (ValueError (lit "No input provided. Use --csv for CSV input or --entries for manual input.")),
     w).
Proof.
  intros [->| ->] [->| ->]; reflexivity.
Qed.

Lemma main_no_input_witness :
  main (fun _ => []) (Arguments_ (Some []) None (lit "README.md"))
       (World [(lit "README.md", lit "# Papers")] [])
  = (Raise (ValueError (lit "No input provided. Use --csv for CSV input or --entries for manual input.")),
     World [(lit "README.md", lit "# Papers")] []).
Proof.
  apply (main_no_input (fun _ => []) (Some []) None (lit "README.md")).
  - now right.
  - now left.
Defined.

(** ** More on the patcher *)

(** X7. Only the last tables count: patching with some tables and then
    with others leaves every file as patching once with the others does.
    What an earlier run wrote after the marker never survives, whether or
    not the file had the marker to begin with. *)
Theorem update_readme_last_wins (tables1 tables2 : dict topic str)
    (readme_path content : str) (w : world) :
  dict_get readme_path (files w) = Some content ->
  let w1 := snd (update_readme_with_tables tables1 readme_path w) in
  fst (update_readme_with_tables tables2 readme_path w1) = OK tt
  /\ files (snd (update_readme_with_tables tables2 readme_path w1))
     = files (snd (update_readme_with_tables tables2 readme_path w)).
Proof.
  intros G w1. subst w1.
  rewrite (update_readme_eq tables1 readme_path w), G. cbn [snd].
  rewrite (update_readme_eq tables2 readme_path w), G.
  rewrite update_readme_eq. cbn [files]. rewrite dict_get_set_same.
  cbn [fst snd files]. split; [reflexivity|].
  now rewrite dict_set_twice, updated_text_twice.
Qed.

Lemma update_readme_last_wins_witness :
  let w := World [(lit "README.md", lit "# Papers")] [] in
  let tables1 := [(Some (lit "3D"), lit "| old |")] in
  let tables2 := [(Some (lit "2D"), lit "| new |")] in
  let w1 := snd (update_readme_with_tables tables1 (lit "README.md") w) in
  fst (update_readme_with_tables tables2 (lit "README.md") w1) = OK tt
  /\ files (snd (update_readme_with_tables tables2 (lit "README.md") w1))
     = files (snd (update_readme_with_tables tables2 (lit "README.md") w)).
Proof.
  intros w tables1 tables2.
  apply (update_readme_last_wins tables1 tables2 (lit "README.md")
           (lit "# Papers") w).
  reflexivity.
Defined.

(** X8. A run that succeeds leaves the marker in the file, so the next
    run on that file finds it: it prints the confirmation and no
    diagnostic. *)
Theorem update_readme_then_quiet (tables1 tables2 : dict topic str)
    (readme_path content : str) (w : world) :
  dict_get readme_path (files w) = Some content ->
  let w1 := snd (update_readme_with_tables tables1 readme_path w) in
  (exists text : str,
     dict_get readme_path (files w1) = Some text
     /\ contains token text = true)
  /\ stdout (snd (update_readme_with_tables tables2 readme_path w1))
     = stdout w1 ++ [ReadmeUpdated readme_path].
Proof.
  intros G w1. subst w1. rewrite update_readme_eq, G. cbn [snd files stdout].
  split.
  - exists (updated_text tables1 content). split.
    + apply dict_get_set_same.
    + apply contains_token_updated.
  - rewrite update_readme_eq. cbn [files stdout].
    rewrite dict_get_set_same. cbn [snd stdout].
    now rewrite contains_token_updated.
Qed.

Lemma update_readme_then_quiet_witness :
  let w := World [(lit "README.md", lit "# Papers")] [] in
  let tables := [(Some (lit "3D"), lit "| t |")] in
  let w1 := snd (update_readme_with_tables tables (lit "README.md") w) in
  stdout w1 = [TokenNotFound token (lit "README.md");
               ReadmeUpdated (lit "README.md")]
  /\ stdout (snd (update_readme_with_tables tables (lit "README.md") w1))
     = stdout w1 ++ [ReadmeUpdated (lit "README.md")].
Proof.
  intros w tables w1. split; [reflexivity|].
  apply (update_readme_then_quiet tables tables (lit "README.md")
           (lit "# Papers") w).
  reflexivity.
Defined.



(** ** More on the loaders *)




(** *** Counting records *)

Section Counting.
Context {K X : Type} `{EqbOk K}.

Lemma length_flat_dict_set_present (k : K) (l l0 : list X)
    (d : dict K (list X)) :
  dict_get k d = Some l0 ->
  length (flat_map snd (dict_set k l d)) + length l0
  = length (flat_map snd d) + length l.
Proof.
  induction d as [|[k1 l1] d IH]; cbn; [discriminate|].
  destruct (eqb k k1).
  - intros [= ->]. cbn. rewrite !length_app. lia.
  - intro G. cbn. rewrite !length_app. specialize (IH G). lia.
Qed.

Lemma length_flat_dict_append (k : K) (x : X) (d : dict K (list X)) :
  length (flat_map snd (dict_append k x d)) = S (length (flat_map snd d)).
Proof.
  unfold dict_append. destruct (dict_get k d) as [l0|] eqn:G.
  - pose proof (length_flat_dict_set_present k (l0 ++ [x]) l0 d G) as Q.
    rewrite length_app in Q. cbn in Q. lia.
  - rewrite (dict_set_absent k [x] d G), flat_map_app, length_app.
    cbn. lia.
Qed.

Lemma length_flat_group {Y : Type} (key : Y -> K) (val : Y -> X)
    (ys : list Y) (d : dict K (list X)) :
  length (flat_map snd (fold_left (group_step key val) ys d))
  = length (flat_map snd d) + length ys.
Proof.
  revert d. induction ys as [|y ys IH]; intros d; cbn [fold_left length].
  - lia.
  - rewrite IH. unfold group_step. rewrite length_flat_dict_append. lia.
Qed.
End Counting.

(** X13. [collect_manual_data] loses and invents nothing: the data holds,
    over all topics, as many records as there are entries with the seven
    parts. *)
Theorem collect_manual_data_count (entries : list str) (w : world) :
  exists d : data,
    fst (collect_manual_data entries w) = OK d
    /\ record_count d
       = length (filter (fun e => length (split 59%N e) =? 7) entries).
Proof.
  unfold collect_manual_data. rewrite collect_loop_eq. cbn [fst].
  eexists. split; [reflexivity|]. unfold record_count.
  rewrite length_flat_group. cbn [flat_map length Nat.add].
  induction entries as [|e entries IH]; [reflexivity|].
  cbn [parsed flat_map filter]. fold (parsed entries).
  rewrite length_app, IH. fold (seven_parts e).
  destruct (parse_manual e) as [p|] eqn:P.
  - assert (S : seven_parts e = true) by (apply parse_manual_seven; eauto).
    now rewrite S.
  - assert (S : seven_parts e = false).
    { destruct (seven_parts e) eqn:S; [|reflexivity].
      apply parse_manual_seven in S as [p S]. congruence. }
    now rewrite S.
Qed.

(** X14. [load_data_from_csv] files every row once: when the header has
    the [topic] column, the data holds, over all topics, as many records
    as the file has rows after the header that are not blank. *)
Theorem load_data_from_csv_count (csv_reader : str -> list (list str))
    (csv_path text : str) (header : list str) (body : list (list str))
    (w : world) :
  dict_get csv_path (files w) = Some text ->
  csv_reader (decode_utf8_sig text) = header :: body ->
  In (lit "topic") header ->
  exists d : data,
    fst (load_data_from_csv csv_reader csv_path w) = OK d
    /\ record_count d
       = length (filter (fun row => negb (is_blank row)) body).
Proof.
  intros G R I.
  rewrite (load_data_from_csv_eq csv_reader csv_path text w G), R.
  cbv zeta beta iota.
  replace (existsb (eqb (lit "topic")) header) with true
    by (symmetry; now apply existsb_eqb_In).
  eexists. split; [reflexivity|]. unfold record_count.
  rewrite length_flat_group. unfold DictReader_rows.
  now rewrite length_map.
Qed.

Lemma load_data_from_csv_count_witness :
  let csv_reader := fun _ : str =>
    [[lit "topic"; lit "title"]; [lit "3D"; lit "NeRF"]; [];
     [lit "2D"]; [lit "3D"; lit "Splat"; lit "extra"]] in
  exists d : data,
    fst (load_data_from_csv csv_reader (lit "papers.csv")
           (World [(lit "papers.csv", [])] [])) = OK d
    /\ record_count d = 3.
Proof.
  intro csv_reader.
  apply (load_data_from_csv_count csv_reader (lit "papers.csv") []
           [lit "topic"; lit "title"]
           [[lit "3D"; lit "NeRF"]; []; [lit "2D"];
            [lit "3D"; lit "Splat"; lit "extra"]]
           (World [(lit "papers.csv", [])] [])).
  - reflexivity.
  - reflexivity.
  - left. reflexivity.
Defined.

(** *** Cells of a row *)

Section FoldSet.
Context {K V X : Type} `{EqbOk K}.
Variable f : X -> K.
Variable g : X -> V.

Lemma dict_get_fold_set_notin (k : K) (xs : list X) (d : dict K V) :
  ~ In k (map f xs) ->
  dict_get k (fold_left (fun d x => dict_set (f x) (g x) d) xs d)
  = dict_get k d.
Proof.
  revert d. induction xs as [|x xs IH]; intros d N; [reflexivity|].
  cbn [fold_left]. rewrite IH.
  - apply dict_get_set_other. intro E. apply N. left. exact E.
  - intro I. apply N. now right.
Qed.

(** What a loop of assignments leaves in a dictionary satisfies whatever
    the values assigned and the values already there satisfy. *)
Lemma dict_get_fold_set_inv (P : V -> Prop) (xs : list X) (d : dict K V) :
  (forall k v, dict_get k d = Some v -> P v) ->
  (forall x, In x xs -> P (g x)) ->
  forall k v,
    dict_get k (fold_left (fun d x => dict_set (f x) (g x) d) xs d) = Some v ->
    P v.
Proof.
  revert d. induction xs as [|x xs IH]; intros d Pd Px k v; [apply Pd|].
  cbn [fold_left]. apply IH.
  - intros k' v' G. destruct (eqb (f x) k') eqn:E.
    + apply eqb_ok in E. subst k'. rewrite dict_get_set_same in G.
      injection G as <-. apply Px. now left.
    + apply eqb_neq in E. rewrite dict_get_set_other in G by exact E.
      now apply (Pd k').
  - intros x' I. apply Px. now right.
Qed.
End FoldSet.

(** The cells of a row as long as the header, or longer, are strings. *)
Lemma DictReader_row_full (fieldnames row : list str) (k : str) (c : cell) :
  length fieldnames <= length row ->
  dict_get k (cells (DictReader_row fieldnames row)) = Some c ->
  exists s : str, c = Some s.
Proof.
  intros L G.
  assert (Z : cells (DictReader_row fieldnames row) = zip_dict fieldnames row).
  { unfold DictReader_row.
    destruct (length fieldnames <? length row); [reflexivity|].
    replace (length row <? length fieldnames) with false; [reflexivity|].
    symmetry. apply Nat.ltb_ge. exact L. }
  rewrite Z in G. unfold zip_dict in G.
  apply (dict_get_fold_set_inv (V := cell) fst (fun kv => Some (snd kv))
           (fun v => exists s : str, v = Some s)
           (combine fieldnames row) []) with (k := k).
  - discriminate.
  - intros x _. now exists (snd x).
  - exact G.
Qed.

(** A record with the four columns the renderer needs, all of them
    strings, renders. *)
Lemma render_row_total (e : entry) :
  (forall k, In k [lit "title"; lit "authors"; lit "code"] ->
             In k (keys (cells e))) ->
  (forall k c, dict_get k (cells e) = Some c -> exists s : str, c = Some s) ->
  exists row : str, render_row e = OK row.
Proof.
  intros A S.
  assert (P : forall k, In k [lit "title"; lit "authors"; lit "code"] ->
                        exists s : str, dict_get k (cells e) = Some (Some s)).
  { intros k I. destruct (dict_get k (cells e)) as [c|] eqn:G.
    - destruct (S k c G) as [s ->]. now exists s.
    - apply dict_get_None in G. destruct G. now apply A. }
  destruct (P (lit "title")) as [title T]; [now left|].
  destruct (P (lit "authors")) as [authors U]; [right; now left|].
  destruct (P (lit "code")) as [code C]; [right; right; now left|].
  assert (X : exists arxiv_url : str,
            get e (lit "arxiv page") (Some []) = Some arxiv_url).
  { unfold get. destruct (dict_get (lit "arxiv page") (cells e)) as [c|] eqn:G.
    - exact (S _ c G).
    - now exists []. }
  destruct X as [arxiv_url X].
  eexists. exact (render_row_eq e code arxiv_url (Some title) (Some authors)
                    C X T U).
Qed.

(** X12. A CSV file whose header has the columns [topic], [title],
    [authors] and [code], and none of whose rows is shorter than the
    header, loads and renders: neither a lookup nor a badge can fail. *)
Theorem csv_data_renders (csv_reader : str -> list (list str))
    (csv_path text : str) (header : list str) (body : list (list str))
    (w : world) :
  dict_get csv_path (files w) = Some text ->
  csv_reader (decode_utf8_sig text) = header :: body ->
  (forall k, In k [lit "topic"; lit "title"; lit "authors"; lit "code"] ->
             In k header) ->
  (forall row, In row body -> row <> [] -> length header <= length row) ->
  exists (d : data) (tables : dict topic str),
    fst (load_data_from_csv csv_reader csv_path w) = OK d
    /\ generate_markdown_tables d = OK tables.
Proof.
  intros G R A L.
  rewrite (load_data_from_csv_eq csv_reader csv_path text w G), R.
  cbv zeta beta iota.
  replace (existsb (eqb (lit "topic")) header) with true
    by (symmetry; apply existsb_eqb_In, A; now left).
  cbn [fst].
  destruct (render_tables_total
              (fold_left (group_step topic_cell (fun r => r))
                 (DictReader_rows header body) []) []) as [tables T].
  - intros t es e I Ie.
    destruct (group_members topic_cell (fun r => r) t es
                (DictReader_rows header body) e I Ie) as (r & Rr & _ & <-).
    unfold DictReader_rows in Rr. apply in_map_iff in Rr as (row & <- & Ir).
    apply filter_In in Ir as [Ir Nb].
    apply render_row_total.
    + intros k Ik. apply DictReader_row_keys. apply A. now right.
    + intros k c. apply DictReader_row_full. apply L; [exact Ir|].
      now destruct row.
  - eexists. exists tables. split; [reflexivity | exact T].
Qed.

Lemma csv_data_renders_witness :
  let csv_reader := fun _ : str =>
    [[lit "title"; lit "topic"; lit "code"; lit "authors"];
     [lit "NeRF"; lit "3D"; lit "https://github.com/o/r"; lit "A"; lit "x"];
     [];
     [lit "SAM"; lit "2D"; lit ""; lit "B"]] in
  exists (d : data) (tables : dict topic str),
    fst (load_data_from_csv csv_reader (lit "papers.csv")
           (World [(lit "papers.csv", [])] [])) = OK d
    /\ generate_markdown_tables d = OK tables.
Proof.
  intro csv_reader.
  apply (csv_data_renders csv_reader (lit "papers.csv") []
           [lit "title"; lit "topic"; lit "code"; lit "authors"]
           [[lit "NeRF"; lit "3D"; lit "https://github.com/o/r"; lit "A";
             lit "x"];
            [];
            [lit "SAM"; lit "2D"; lit ""; lit "B"]]
           (World [(lit "papers.csv", [])] [])).
  - reflexivity.
  - reflexivity.
  - intros k I. cbn in I |- *. intuition.
  - intros row I N. cbn in I.
    destruct I as [<-|[<-|[<-|[]]]]; cbn; try lia. contradiction.
Defined.

Lemma in_combine_fst {A B} (l : list A) (l' : list B) (a : A) :
  In a (map fst (combine l l')) -> In a l.
Proof.
  rewrite map_fst_combine. apply in_firstn.
Qed.

Lemma dict_get_zip_from (h row : list str) (d : dict str cell) (j : nat)
    (k : str) :
  NoDup h -> nth_error h j = Some k ->
  dict_get k (fold_left (fun d kv => dict_set (fst kv) (Some (snd kv)) d)
                (combine h row) d)
  = match nth_error row j with
    | Some v => Some (Some v)
    | None => dict_get k d
    end.
Proof.
  revert row d j. induction h as [|a h IH]; intros row d j N E.
  - destruct j; discriminate.
  - inversion N as [|? ? Na Nh]; subst. destruct row as [|v row].
    + cbn. now destruct j.
    + cbn [combine fold_left fst snd]. destruct j as [|j].
      * cbn in E. injection E as ->. cbn [nth_error].
        pose proof (dict_get_fold_set_notin (V := cell) fst
                      (fun kv : str * str => Some (snd kv)) k
                      (combine h row) (dict_set k (Some v) d)) as Q.
        cbv beta in Q. etransitivity.
        -- apply Q. intro I. apply Na. now apply in_combine_fst in I.
        -- apply dict_get_set_same.
      * cbn in E. cbn [nth_error]. rewrite (IH row _ j Nh E).
        destruct (nth_error row j); [reflexivity|].
        apply dict_get_set_other. intros ->. apply Na.
        now apply nth_error_In in E.
Qed.

Lemma dict_get_fill_in (k : str) (ks : list str) (d : dict str cell) :
  In k ks ->
  dict_get k (fold_left (fun d k => dict_set k None d) ks d) = Some None.
Proof.
  revert d. induction ks as [|x ks IH]; intros d I; [contradiction|].
  cbn [fold_left]. destruct (existsb (eqb k) ks) eqn:X.
  - apply IH. now apply existsb_eqb_In.
  - destruct I as [->|I]; [|apply existsb_eqb_In in I; congruence].
    pose proof (dict_get_fold_set_notin (V := cell) (fun k : str => k)
                  (fun _ => None) k ks (dict_set k None d)) as Q.
    cbv beta in Q. etransitivity.
    + apply Q. rewrite map_id. intro I. apply existsb_eqb_In in I.
      congruence.
    + apply dict_get_set_same.
Qed.

(** The cell of a column in a record: the cell of the row at the place
    of the column, or [None] when the row ends before it. *)
Lemma DictReader_row_get (fieldnames row : list str) (j : nat) (k : str) :
  NoDup fieldnames -> nth_error fieldnames j = Some k ->
  dict_get k (cells (DictReader_row fieldnames row))
  = Some (nth_error row j).
Proof.
  intros N E.
  assert (J : j < length fieldnames) by (apply nth_error_Some; congruence).
  assert (Z : dict_get k (zip_dict fieldnames row)
              = match nth_error row j with
                | Some v => Some (Some v)
                | None => None
                end).
  { unfold zip_dict. exact (dict_get_zip_from fieldnames row [] j k N E). }
  unfold DictReader_row.
  destruct (length fieldnames <? length row) eqn:L1; cbn [cells].
  - apply Nat.ltb_lt in L1. rewrite Z.
    destruct (nth_error row j) eqn:R; [reflexivity|].
    apply nth_error_None in R. lia.
  - apply Nat.ltb_ge in L1.
    destruct (length row <? length fieldnames) eqn:L2; cbn [cells].
    + destruct (nth_error row j) as [v|] eqn:R.
      * assert (Jr : j < length row) by (apply nth_error_Some; congruence).
        pose proof (dict_get_fold_set_notin (V := cell) (fun k : str => k)
                      (fun _ => None) k (skipn (length row) fieldnames)
                      (zip_dict fieldnames row)) as Q.
        cbv beta in Q. etransitivity; [apply Q | exact Z].
        rewrite map_id. intro I.
        apply In_nth_error in I as [i I].
        rewrite nth_error_skipn in I.
        assert (length row + i = j).
        { apply (proj1 (NoDup_nth_error fieldnames) N).
          - apply nth_error_Some. congruence.
          - congruence. }
        lia.
      * apply dict_get_fill_in. apply nth_error_None in R.
        replace j with (length row + (j - length row)) in E by lia.
        rewrite <- nth_error_skipn in E. now apply nth_error_In in E.
    + apply Nat.ltb_ge in L2. rewrite Z.
      destruct (nth_error row j) eqn:R; [reflexivity|].
      apply nth_error_None in R. lia.
Qed.

(** X15. A row of a CSV file that ends before the [code] column, or
    before the [arxiv page] column, cannot be rendered: the cell is
    [None], and the badge generator fails on it with [TypeError]. The
    header is taken to name every column once. *)
Theorem short_row_fails (fieldnames row : list str) :
  NoDup fieldnames ->
  (forall j : nat,
     nth_error fieldnames j = Some (lit "code") -> length row <= j ->
     render_row (DictReader_row fieldnames row) = Raise TypeError)
  /\ (forall jc ja : nat,
        nth_error fieldnames jc = Some (lit "code") -> jc < length row ->
        nth_error fieldnames ja = Some (lit "arxiv page") ->
        length row <= ja ->
        render_row (DictReader_row fieldnames row) = Raise TypeError).
Proof.
  intro N. split.
  - intros j E L. unfold render_row, getitem.
    rewrite (DictReader_row_get fieldnames row j _ N E).
    replace (nth_error row j) with (@None str); [reflexivity|].
    symmetry. now apply nth_error_None.
  - intros jc ja Ec Lc Ea La. unfold render_row, getitem.
    rewrite (DictReader_row_get fieldnames row jc _ N Ec).
    destruct (nth_error row jc) as [code|] eqn:R.
    + cbn [rbind OK as_str]. unfold get.
      rewrite (DictReader_row_get fieldnames row ja _ N Ea).
      replace (nth_error row ja) with (@None str); [reflexivity|].
      symmetry. now apply nth_error_None.
    + apply nth_error_None in R. lia.
Qed.

Lemma short_row_fails_witness :
  render_row (DictReader_row [lit "topic"; lit "title"; lit "code"]
                [lit "3D"; lit "NeRF"])
  = Raise TypeError
  /\ render_row (DictReader_row
                   [lit "topic"; lit "code"; lit "title"; lit "arxiv page"]
                   [lit "3D"; lit "https://github.com/o/r"; lit "NeRF"])
     = Raise TypeError.
Proof.
  split.
  - apply (short_row_fails [lit "topic"; lit "title"; lit "code"]
             [lit "3D"; lit "NeRF"]) with (j := 2).
    + repeat constructor; cbn; intuition discriminate.
    + reflexivity.
    + cbn. lia.
  - apply (short_row_fails
             [lit "topic"; lit "code"; lit "title"; lit "arxiv page"]
             [lit "3D"; lit "https://github.com/o/r"; lit "NeRF"])
      with (jc := 1) (ja := 3).
    + repeat constructor; cbn; intuition discriminate.
    + reflexivity.
    + cbn. lia.
    + reflexivity.
    + cbn. lia.
Defined.

(** *** Manual entries and their fields *)

Lemma split_parts_no_sep (c : char) (s p : str) :
  In p (split c s) -> ~ In c p.
Proof.
  revert p. induction s as [|x s IH]; intros p I.
  - cbn in I. destruct I as [<-|[]]. intros [].
  - cbn [split] in I. destruct (N.eqb_spec x c) as [->|N].
    + destruct I as [<-|I]; [intros [] | now apply IH].
    + destruct (split c s) as [|h t] eqn:E.
      * now destruct (split_not_nil c s).
      * destruct I as [<-|I].
        -- intros [F|F]; [congruence|]. apply (IH h); [now left | exact F].
        -- apply IH. now right.
Qed.

Lemma strip_keeps_out (c : char) (s : str) : ~ In c s -> ~ In c (strip s).
Proof.
  intros N I. apply N. clear N.
  assert (F : forall p (t : str), In c (dropwhile p t) -> In c t).
  { intros p t. induction t as [|a t IH]; [easy|]. cbn.
    destruct (p a); [intro Q; right; now apply IH | easy]. }
  unfold strip, lstrip_by, rstrip_by in I.
  apply F in I. apply in_rev in I. apply F in I. now apply in_rev in I.
Qed.

(** X16. [collect_manual_data] takes an entry exactly when it holds six
    semicolons. It then files one record under the text before the first
    semicolon, and no field of the record holds a semicolon: a summary
    with a semicolon in it makes its entry malformed. Any other entry
    leaves the data as it is and is reported. *)
Theorem collect_entry_six_semicolons (e : str) (d : data) (w : world) :
  (count_occ N.eq_dec e 59%N = 6 ->
   exists (tpc : str) (r : entry),
     collect_entry e d w = (OK (dict_append (Some tpc) r d), w)
     /\ (exists rest : str, e = tpc ++ 59%N :: rest)
     /\ ~ In 59%N tpc
     /\ forall (k : str) (c : cell),
          In (k, c) (cells r) -> exists s : str, c = Some s /\ ~ In 59%N s)
  /\ (count_occ N.eq_dec e 59%N <> 6 ->
      collect_entry e d w
      = (OK d, World (files w) (stdout w ++ [SkippingMalformed e]))).
Proof.
  rewrite collect_entry_eq.
  pose proof (length_split 59%N e) as L.
  pose proof (split_parts_no_sep 59%N e) as P.
  assert (J : forall a b, split 59%N e = a :: b ->
                          b <> [] -> exists rest, e = a ++ 59%N :: rest).
  { clear. revert e. induction e as [|x e IH]; intros a b E N.
    - cbn in E. injection E as <- <-. contradiction.
    - cbn [split] in E. destruct (N.eqb_spec x 59) as [->|Nx].
      + injection E as <- <-. now exists e.
      + destruct (split 59%N e) as [|h t] eqn:S.
        * now destruct (split_not_nil 59%N e).
        * injection E as <- <-. destruct (IH h t eq_refl N) as [rest ->].
          now exists rest. }
  unfold parse_manual.
  destruct (split 59%N e) as [|p1 [|p2 [|p3 [|p4 [|p5 [|p6 [|p7 [|p8 l]]]]]]]];
    cbn [length] in L; split; intro C; try lia; try reflexivity.
  exists p1, (manual_record p2 p3 p4 p5 p6 p7). cbn [fst snd].
  split; [reflexivity|]. split; [apply (J p1 _ eq_refl); discriminate|].
  split; [apply P; now left|].
  intros k c I. cbn in I.
  repeat (destruct I as [I|I];
          [injection I as <- <-; eexists; split; [reflexivity|];
           apply strip_keeps_out, P; cbn; tauto|]).
  contradiction.
Qed.

Lemma collect_entry_six_semicolons_witness :
  collect_entry (lit "3D;NeRF;A;;;;fast; but large") [] (World [] [])
  = (OK [],
     World [] [SkippingMalformed (lit "3D;NeRF;A;;;;fast; but large")]).
Proof.
  apply (collect_entry_six_semicolons (lit "3D;NeRF;A;;;;fast; but large")
           [] (World [] [])).
  vm_compute. discriminate.
Defined.

(** What [strip] returns neither starts nor ends with white space. *)
Lemma strip_ends (s : str) :
  strip s = []
  \/ (exists (a : char) (t : str), strip s = a :: t /\ isspace a = false)
     /\ (exists (t : str) (z : char), strip s = t ++ [z] /\ isspace z = false).
Proof.
  unfold strip, lstrip_by.
  destruct (rstrip_by_spec isspace s) as (tail & _ & _ & L).
  set (r := rstrip_by isspace s) in *. clearbody r. clear s tail.
  induction r as [|c r IH]; [now left|].
  cbn [dropwhile]. destruct (isspace c) eqn:E.
  - apply IH. intros body x Q. apply (L (c :: body) x). cbn. now rewrite Q.
  - right. split; [now exists c, r|].
    destruct (exists_last (l := c :: r)) as (t & z & Q); [discriminate|].
    exists t, z. split; [exact Q|]. exact (L t z Q).
Qed.

Lemma strip_idem (s : str) : strip (strip s) = strip s.
Proof.
  destruct (strip_ends s) as [->|[(a & t & E & Ea) (t' & z & F & Ez)]];
    [reflexivity|].
  set (u := strip s) in *. clearbody u. unfold strip, lstrip_by.
  rewrite F, rstrip_by_keep by exact Ez. rewrite <- F, E.
  now apply dropwhile_stop.
Qed.

(** X17. Every record [collect_manual_data] files has the six fields
    [title], [authors], [code], [arxiv page], [project page] and
    [summary], in this order, and each holds a string that stripping
    leaves as it is: no field starts or ends with white space. *)
Theorem manual_records_trimmed (entries : list str) (w : world) :
  exists d : data,
    fst (collect_manual_data entries w) = OK d
    /\ forall (t : topic) (es : list entry) (r : entry),
         In (t, es) d -> In r es ->
         keys (cells r)
         = [lit "title"; lit "authors"; lit "code"; lit "arxiv page";
            lit "project page"; lit "summary"]
         /\ surplus r = None
         /\ forall (k : str) (c : cell),
              In (k, c) (cells r) -> exists s : str, c = Some s /\ strip s = s.
Proof.
  unfold collect_manual_data. rewrite collect_loop_eq. cbn [fst].
  eexists. split; [reflexivity|]. intros t es r I Ir.
  destruct (group_members (fun p : str * entry => Some (fst p)) snd t es
              (parsed entries) r I Ir) as (p & Ip & _ & <-).
  destruct (parsed_records p entries Ip) as (a & b & c & x & y & z & ->).
  split; [reflexivity|]. split; [reflexivity|].
  intros k v Iv. cbn in Iv.
  repeat (destruct Iv as [Iv|Iv];
          [injection Iv as <- <-; eexists; split; [reflexivity|];
           apply strip_idem|]).
  contradiction.
Qed.

(** ** More on the badges *)

Lemma rstrip_by_app_all (p : char -> bool) (s tail : str) :
  forallb p tail = true -> rstrip_by p (s ++ tail) = rstrip_by p s.
Proof.
  intro F. unfold rstrip_by. rewrite rev_app_distr.
  now rewrite dropwhile_app_all by now apply forallb_rev_true.
Qed.

(** X18. Slashes at the end of a code URL do not change the repository
    name of its badge; only the link, which is the URL as given, tells
    the two badges apart. *)
Theorem code_badge_trailing_slashes (code_url slashes : str) :
  contains (lit "github.com") code_url = true ->
  Forall (eq 47%N) slashes ->
  exists repo_name : str,
    generate_code_badge code_url
    = lit "[![GitHub](https://img.shields.io/github/stars/" ++ repo_name
      ++ lit "?style=social)](" ++ code_url ++ lit ")"
    /\ generate_code_badge (code_url ++ slashes)
       = lit "[![GitHub](https://img.shields.io/github/stars/" ++ repo_name
         ++ lit "?style=social)](" ++ (code_url ++ slashes) ++ lit ")".
Proof.
  intros C F.
  exists (replace github_host [] (rstrip (lit "/") code_url)).
  unfold generate_code_badge.
  rewrite C, (contains_app_r _ _ slashes C). split; [reflexivity|].
  unfold rstrip. rewrite rstrip_by_app_all; [reflexivity|].
  apply forallb_forall. intros y I.
  rewrite Forall_forall in F. rewrite <- (F y I). reflexivity.
Qed.

Lemma code_badge_trailing_slashes_witness :
  exists repo_name : str,
    generate_code_badge (lit "https://github.com/o/r")
    = lit "[![GitHub](https://img.shields.io/github/stars/" ++ repo_name
      ++ lit "?style=social)](" ++ lit "https://github.com/o/r" ++ lit ")"
    /\ generate_code_badge (lit "https://github.com/o/r" ++ lit "///")
       = lit "[![GitHub](https://img.shields.io/github/stars/" ++ repo_name
         ++ lit "?style=social)]("
         ++ (lit "https://github.com/o/r" ++ lit "///") ++ lit ")".
Proof.
  apply (code_badge_trailing_slashes (lit "https://github.com/o/r")
           (lit "///")).
  - vm_compute. reflexivity.
  - repeat constructor.
Defined.

(** X19. The host prefix is removed only in the form
    [https://github.com/]. A code URL that contains [github.com] but not
    that text, as with [http://], [www.] or [git@], keeps all of itself
    but the trailing slashes as the repository name of its badge. *)
Theorem code_badge_other_host_form (code_url : str) :
  contains (lit "github.com") code_url = true ->
  contains (lit "https://github.com/") code_url = false ->
  exists (kept slashes : str),
    code_url = kept ++ slashes
    /\ Forall (eq 47%N) slashes
    /\ (forall (t : str) (z : char), kept = t ++ [z] -> z <> 47%N)
    /\ generate_code_badge code_url
       = lit "[![GitHub](https://img.shields.io/github/stars/" ++ kept
         ++ lit "?style=social)](" ++ code_url ++ lit ")".
Proof.
  intros C N.
  destruct (rstrip_github code_url C) as (body & x & slashes & E & Nx & F & R).
  exists (body ++ [x]), slashes. split; [exact E|]. split; [exact F|].
  split.
  - intros t z Q. apply app_inj_tail in Q as [_ <-]. exact Nx.
  - unfold generate_code_badge. rewrite C, R. unfold code_badge_of.
    f_equal. f_equal. apply replace_absent; [apply github_host_not_nil|].
    destruct (contains github_host (body ++ [x])) eqn:Q; [|reflexivity].
    apply contains_app_r with (b := slashes) in Q. rewrite <- E in Q.
    unfold github_host in Q. congruence.
Qed.

Lemma code_badge_other_host_form_witness :
  exists (kept slashes : str),
    lit "http://www.github.com/o/r/" = kept ++ slashes
    /\ Forall (eq 47%N) slashes
    /\ (forall (t : str) (z : char), kept = t ++ [z] -> z <> 47%N)
    /\ generate_code_badge (lit "http://www.github.com/o/r/")
       = lit "[![GitHub](https://img.shields.io/github/stars/" ++ kept
         ++ lit "?style=social)](" ++ lit "http://www.github.com/o/r/"
         ++ lit ")".
Proof.
  apply (code_badge_other_host_form (lit "http://www.github.com/o/r/"));
    vm_compute; reflexivity.
Defined.

(** X20. Unlike the code badge, the paper badge does not strip a
    trailing slash: a paper URL that ends in a slash gets a badge with
    an empty identifier. *)
Theorem arxiv_badge_trailing_slash (pre : str) :
  contains (lit "arxiv.org") (pre ++ lit "/") = true
  \/ contains (lit "ar5iv.labs") (pre ++ lit "/") = true ->
  generate_arxiv_badge (pre ++ lit "/")
  = lit "[![arXiv](https://img.shields.io/badge/arXiv--b31b1b.svg?style=for-the-badge)]("
    ++ (pre ++ lit "/") ++ lit ")".
Proof.
  intro C. unfold generate_arxiv_badge.
  replace (contains (lit "arxiv.org") (pre ++ lit "/")
           || contains (lit "ar5iv.labs") (pre ++ lit "/")) with true
    by (symmetry; apply orb_true_iff; exact C).
  change (pre ++ lit "/") with (pre ++ 47%N :: []) at 1.
  rewrite last_part_after by (intros []).
  unfold arxiv_badge_of. cbn [app].
  change (lit "[![arXiv](https://img.shields.io/badge/arXiv--b31b1b.svg?style=for-the-badge)](")
    with (lit "[![arXiv](https://img.shields.io/badge/arXiv-"
          ++ lit "-b31b1b.svg?style=for-the-badge)](").
  now rewrite <- app_assoc.
Qed.

Lemma arxiv_badge_trailing_slash_witness :
  generate_arxiv_badge (lit "https://arxiv.org/abs/2403.12345" ++ lit "/")
  = lit "[![arXiv](https://img.shields.io/badge/arXiv--b31b1b.svg?style=for-the-badge)]("
    ++ (lit "https://arxiv.org/abs/2403.12345" ++ lit "/") ++ lit ")".
Proof.
  apply (arxiv_badge_trailing_slash (lit "https://arxiv.org/abs/2403.12345")).
  left. vm_compute. reflexivity.
Defined.

(** ** More on the renderer *)

Lemma render_rows_first_failure (ok rest : list entry) (e : entry)
    (err : exn) (table : str) :
  (forall x, In x ok -> exists row, render_row x = OK row) ->
  render_row e = Raise err ->
  render_rows table (ok ++ e :: rest) = Raise err.
Proof.
  revert table. induction ok as [|x ok IH]; intros table A R.
  - cbn [app render_rows]. now rewrite R.
  - cbn [app render_rows]. destruct (A x (or_introl eq_refl)) as [row ->].
    cbn [rbind OK]. apply IH; [|exact R]. intros y I. apply A. now right.
Qed.

(** X21. Rendering stops at the first record that cannot be rendered, in
    the order of the topics and of the records of a topic, and fails with
    the error of that record; what comes after it is not looked at. *)
Theorem render_first_failure (d1 d2 : data) (t : topic)
    (ok rest : list entry) (e : entry) (err : exn) :
  (forall t' es x, In (t', es) d1 -> In x es ->
                   exists row, render_row x = OK row) ->
  (forall x, In x ok -> exists row, render_row x = OK row) ->
  render_row e = Raise err ->
  generate_markdown_tables (d1 ++ (t, ok ++ e :: rest) :: d2) = Raise err.
Proof.
  intros A1 A2 R. unfold generate_markdown_tables.
  generalize (@nil (topic * str)) as tables0.
  induction d1 as [|[t1 es1] d1 IH]; intro tables0.
  - cbn [app render_tables].
    now rewrite (render_rows_first_failure ok rest e err table_header A2 R).
  - cbn [app render_tables].
    destruct (render_rows_total es1 table_header) as [table ->].
    + intros x I. apply (A1 t1 es1 x); [now left | exact I].
    + cbn [rbind OK]. apply IH. intros t' es x I Ix.
      apply (A1 t' es x); [now right | exact Ix].
Qed.

Lemma render_first_failure_witness :
  generate_markdown_tables
    [(Some (lit "3D"),
      [manual_record (lit "NeRF") (lit "A") [] [] [] []]);
     (Some (lit "2D"),
      [manual_record (lit "SAM") (lit "B") [] [] [] [];
       Entry [(lit "code", Some []); (lit "authors", Some (lit "C"))] None;
       Entry [] None])]
  = Raise (KeyError (lit "title")).
Proof.
  apply (render_first_failure
           [(Some (lit "3D"),
             [manual_record (lit "NeRF") (lit "A") [] [] [] []])]
           [] (Some (lit "2D"))
           [manual_record (lit "SAM") (lit "B") [] [] [] []]
           [Entry [] None]
           (Entry [(lit "code", Some []); (lit "authors", Some (lit "C"))]
              None)
           (KeyError (lit "title"))).
  - intros t' es x [I|[]] Ix. injection I as <- <-.
    destruct Ix as [<-|[]]. apply manual_record_renders.
  - intros x [<-|[]]. apply manual_record_renders.
  - reflexivity.
Defined.

(** X22. When [generate_markdown_tables] returns, its result has the
    topics of the data, each once and in the same order, and the table
    of every topic opens with the title line and the rule line. *)
Theorem generate_markdown_tables_topics (d : data)
    (tables : dict topic str) :
  NoDup (keys d) ->
  generate_markdown_tables d = OK tables ->
  keys tables = keys d
  /\ forall (t : topic) (table : str),
       In (t, table) tables ->
       exists rows : str,
         table
         = lit "| Title | Authors | Code / arXiv Page | Summary |" ++ nl
           ++ lit "|:-------------------|:-------------------|:-------------------:|:-------------------|"
           ++ nl ++ rows.
Proof.
  intros N G. unfold generate_markdown_tables in G.
  destruct (render_tables_ok d [] tables N G) as (sections & K & _ & ->).
  cbn [app]. split.
  - unfold keys. rewrite map_map. cbn [fst]. exact K.
  - intros t table I. apply in_map_iff in I as (s & E & _).
    injection E as _ <-. exists (flat_map (fun l => l ++ nl) (snd s)).
    unfold table_header, title_line, rule_line.
    now rewrite <- ?app_assoc.
Qed.

Lemma generate_markdown_tables_topics_witness :
  let d : data :=
    [(Some (lit "3D"), [manual_record (lit "NeRF") (lit "A") [] [] [] []]);
     (None, [])] in
  exists tables : dict topic str,
    generate_markdown_tables d = OK tables
    /\ keys tables = [Some (lit "3D"); None].
Proof.
  intro d.
  destruct (generate_markdown_tables d) as [err|tables] eqn:G;
    [vm_compute in G; discriminate|].
  exists tables. split; [reflexivity|].
  apply (generate_markdown_tables_topics d tables).
  - repeat constructor; cbn; intuition discriminate.
  - exact G.
Defined.
